(** * Lightning Address resolution (src/providers/lightning_address_provider.py)

    A shallow embedding of [LightningAddressProvider.resolve_keysend] and
    [LightningAddressProvider.resolve_lnurlp], together with the part of
    Python's dynamic semantics these two methods rely on: strings as
    sequences of code points, decoded JSON values, [dict.get], truthiness,
    mixed int/float comparison, slicing and exceptions. *)

From Stdlib Require Import ZArith List String Ascii.
From stdpp Require Import base option list gmap.

Local Open Scope Z_scope.

(** ** Python strings *)

(** A Python [str] is a sequence of Unicode code points. *)
Definition char := N.
Definition str := list N.

(** A literal of the source text, as the [str] it denotes. *)
Definition lit (s : string) : str :=
  List.map N_of_ascii (list_ascii_of_string s).

(** [str.isspace] on one character (Unicode White_Space plus the four
    information separators), which is what [str.strip()] removes. *)
Definition isspace (c : char) : bool :=
  ((9 <=? c) && (c <=? 13))%N || ((28 <=? c) && (c <=? 32))%N
  || (c =? 133)%N || (c =? 160)%N || (c =? 5760)%N
  || ((8192 <=? c) && (c <=? 8202))%N
  || (c =? 8232)%N || (c =? 8233)%N || (c =? 8239)%N || (c =? 8287)%N
  || (c =? 12288)%N.

Fixpoint lstrip (s : str) : str :=
  match s with
  | c :: s' => if isspace c then lstrip s' else s
  | [] => []
  end.

Definition rstrip (s : str) : str := rev (lstrip (rev s)).

(** [s.strip()] *)
Definition strip (s : str) : str := rstrip (lstrip s).

Definition str_eqb (a b : str) : bool := bool_decide (a = b).

Fixpoint startswith (s sub : str) {struct sub} : bool :=
  match sub, s with
  | [], _ => true
  | c :: sub', d :: s' => (c =? d)%N && startswith s' sub'
  | _ :: _, [] => false
  end.

(** [sub in s] for two strings: substring search. *)
Fixpoint str_contains (sub s : str) : bool :=
  startswith s sub ||
  match s with
  | [] => false
  | _ :: s' => str_contains sub s'
  end.

(** The cut of [s] at the first occurrence of [sep], if there is one. *)
Fixpoint str_partition (sep s : str) : option (str * str) :=
  if startswith s sep then Some ([], drop (length sep) s)
  else match s with
       | [] => None
       | c :: s' =>
           match str_partition sep s' with
           | Some (a, b) => Some (c :: a, b)
           | None => None
           end
       end.

(** [s.split(sep, 1)] for a non-empty separator. *)
Definition split1 (sep s : str) : list str :=
  match str_partition sep s with
  | Some (a, b) => [a; b]
  | None => [s]
  end.

(** [s[:k]] for an integer [k]; a negative [k] counts from the end. *)
Definition slice_to (s : str) (k : Z) : str :=
  if k <? 0 then take (Z.to_nat (Z.max 0 (Z.of_nat (length s) + k))) s
  else take (Z.to_nat k) s.

(** ** Python values *)

(** A Python float: NaN, an infinity, or the finite value [m * 2^e]. *)
Inductive pyfloat :=
| FNaN
| FInf (negative : bool)
| FFin (m e : Z).

(** The values [json()] can produce. *)
#[local] Unset Elimination Schemes.
Inductive pyval :=
| PNone
| PBool (b : bool)
| PInt (z : Z)
| PFloat (f : pyfloat)
| PStr (s : str)
| PList (l : list pyval)
| PDict (d : gmap str pyval).
#[local] Set Elimination Schemes.

Inductive exn :=
| RequestException      (* requests.exceptions.RequestException and subclasses *)
| JSONDecodeError       (* requests.exceptions.JSONDecodeError *)
| ValueError
| AttributeError
| TypeError
| OtherException.

(** [except requests.exceptions.RequestException] *)
Definition is_request_exception (e : exn) : bool :=
  match e with
  | RequestException | JSONDecodeError => true
  | _ => false
  end.

(** [except (ValueError, requests.exceptions.JSONDecodeError)] *)
Definition is_decode_error (e : exn) : bool :=
  match e with
  | ValueError | JSONDecodeError => true
  | _ => false
  end.

Inductive result (A : Type) :=
| Ok (a : A)
| Raise (e : exn).
Arguments Ok {A} a.
Arguments Raise {A} e.

(** Truthiness, as tested by [not x], [if x] and [x and y]. *)
Definition truthy (v : pyval) : bool :=
  match v with
  | PNone => false
  | PBool b => b
  | PInt z => negb (z =? 0)
  | PFloat (FFin m _) => negb (m =? 0)
  | PFloat _ => true
  | PStr s => negb (str_eqb s [])
  | PList l => match l with [] => false | _ => true end
  | PDict d => negb (bool_decide (d = ∅))
  end.

(** [v.get(key, fallback)]: only a dict has the method. *)
Definition py_get (v : pyval) (key : str) (fallback : pyval) : result pyval :=
  match v with
  | PDict d => Ok (default fallback (d !! key))
  | _ => Raise AttributeError
  end.

(** [v != s] for a string [s]: no other kind of value equals a string. *)
Definition ne_str (v : pyval) (s : str) : bool :=
  match v with
  | PStr t => negb (str_eqb t s)
  | _ => true
  end.

(** [key in v] for a string [key]: key membership for a dict, element
    membership for a list, substring search for a string. *)
Definition str_in (key : str) (v : pyval) : result bool :=
  match v with
  | PDict d => Ok (bool_decide (is_Some (d !! key)))
  | PList l => Ok (existsb (fun x => negb (ne_str x key)) l)
  | PStr s => Ok (str_contains key s)
  | _ => Raise TypeError
  end.

(** Exact comparison of an integer with a float, as CPython does it. *)
Definition int_lt_float (a : Z) (f : pyfloat) : bool :=
  match f with
  | FNaN => false
  | FInf negative => negb negative
  | FFin m e => if 0 <=? e then a <? m * 2 ^ e else a * 2 ^ (- e) <? m
  end.

Definition int_gt_float (a : Z) (f : pyfloat) : bool :=
  match f with
  | FNaN => false
  | FInf negative => negative
  | FFin m e => if 0 <=? e then m * 2 ^ e <? a else m <? a * 2 ^ (- e)
  end.

(** [a < v] for an int [a]. *)
Definition int_lt (a : Z) (v : pyval) : result bool :=
  match v with
  | PInt z => Ok (a <? z)
  | PBool b => Ok (a <? Z.b2z b)
  | PFloat f => Ok (int_lt_float a f)
  | _ => Raise TypeError
  end.

(** [a > v] for an int [a]. *)
Definition int_gt (a : Z) (v : pyval) : result bool :=
  match v with
  | PInt z => Ok (z <? a)
  | PBool b => Ok (Z.b2z b <? a)
  | PFloat f => Ok (int_gt_float a f)
  | _ => Raise TypeError
  end.

(** [v > 0] *)
Definition gt_zero (v : pyval) : result bool :=
  match v with
  | PInt z => Ok (0 <? z)
  | PBool b => Ok b
  | PFloat f => Ok (int_lt_float 0 f)
  | _ => Raise TypeError
  end.

(** [s[:v]]: the bound must be an integer (a bool is one) or [None]. *)
Definition py_slice_to (s : str) (v : pyval) : result str :=
  match v with
  | PInt k => Ok (slice_to s k)
  | PBool b => Ok (slice_to s (Z.b2z b))
  | PNone => Ok s
  | _ => Raise TypeError
  end.

(** ** The injected transport *)

(** What the methods read from a response object: its [text] and the
    outcome of calling [json()] on it. *)
Record response := {
  text : str;
  json : result pyval;
}.

(** One call [requester(method, url, params=..., timeout=...)]; [req_params]
    is [None] when the keyword is not passed. *)
Record request := {
  req_method : str;
  req_url : pyval;
  req_params : option (gmap str pyval);
  req_timeout : Z;
}.

(** ** Computations that call the transport and may raise *)

(** A computation takes the list of calls made so far and gives back its
    outcome with the list extended by the calls it made. *)
Definition M (A : Type) : Type := list request → result A * list request.

#[global] Instance M_ret : MRet M := λ A a log, (Ok a, log).

#[global] Instance M_bind : MBind M := λ A B k m log,
  match m log with
  | (Ok a, log') => k a log'
  | (Raise e, log') => (Raise e, log')
  end.

(** A pure step that may raise. *)
Definition lift {A} (r : result A) : M A := λ log, (r, log).

(** [try: x = m  except <caught>: handler] followed by [k x]; an exception
    that [caught] does not match propagates. *)
Definition try_except {A B} (m : M A) (caught : exn → bool)
    (handler : M B) (k : A → M B) : M B :=
  λ log, match m log with
         | (Ok a, log') => k a log'
         | (Raise e, log') =>
             if caught e then handler log' else (Raise e, log')
         end.

(** ** The result records *)

Record KeysendResponse := {
  pubkey : pyval;
  custom_data : pyval;
}.

Record LnurlpResponse := {
  invoice : pyval;
}.

(** ** Pieces of the two methods *)

(** [username, domain = parts]: unpacking needs exactly two parts. *)
Definition unpack2 (parts : list str) : result (str * str) :=
  match parts with
  | [a; b] => Ok (a, b)
  | _ => Raise ValueError
  end.

(** [not t or not t.strip()] *)
Definition blank (t : str) : bool :=
  negb (truthy (PStr t)) || negb (truthy (PStr (strip t))).

(** [amount_msats < min_sendable or amount_msats > max_sendable] *)
Definition out_of_range (amount_msats : Z) (min_sendable max_sendable : pyval)
    : result bool :=
  match int_lt amount_msats min_sendable with
  | Ok true => Ok true
  | Ok false => int_gt amount_msats max_sendable
  | Raise e => Raise e
  end.

(** [sender_name and "name" in payer_data] *)
Definition name_accepted (sender_name : str) (payer_data : pyval) : result bool :=
  if truthy (PStr sender_name) then str_in (lit "name") payer_data else Ok false.

(** [message and max_comment_length > 0] *)
Definition comment_accepted (message : str) (max_comment_length : pyval)
    : result bool :=
  if truthy (PStr message) then gt_zero max_comment_length else Ok false.

(** Lines 95-103: the query parameters of the callback request. *)
Definition callback_params (amount_msats : Z) (sender_name message : str)
    (lnurl_data : pyval) : result (gmap str pyval) :=
  let params : gmap str pyval := {[ lit "amount" := PInt amount_msats ]} in
  match py_get lnurl_data (lit "payerData") (PDict ∅) with
  | Raise e => Raise e
  | Ok payer_data =>
  match name_accepted sender_name payer_data with
  | Raise e => Raise e
  | Ok with_name =>
  let params :=
    if with_name then <[ lit "name" := PStr sender_name ]> params else params in
  match py_get payer_data (lit "commentAllowed") (PInt 0) with
  | Raise e => Raise e
  | Ok max_comment_length =>
  match comment_accepted message max_comment_length with
  | Raise e => Raise e
  | Ok false => Ok params
  | Ok true =>
      match py_slice_to message max_comment_length with
      | Raise e => Raise e
      | Ok comment => Ok (<[ lit "comment" := PStr comment ]> params)
      end
  end end end end.

(** ** LightningAddressProvider *)

Section Provider.

(** The two fields of the provider: the injected transport, which either
    returns a response or raises, and the timeout. *)
Variable requester : request → result response.
Variable self_timeout : Z.

(** [self.requester("GET", url, timeout=self.timeout)], with
    [params=params] when given; the call is recorded. *)
Definition get (target : pyval) (query : option (gmap str pyval)) : M response :=
  let req := {| req_method := lit "GET"; req_url := target;
                req_params := query; req_timeout := self_timeout |} in
  λ log, (requester req, log ++ [req]).

Definition resolve_keysend (lightning_address : str)
    : M (option KeysendResponse) :=
  if negb (str_contains (lit "@") lightning_address) then mret None else
  '(username, domain) ← lift (unpack2 (split1 (lit "@") lightning_address));
  let keysend_url :=
    lit "https://" ++ domain ++ lit "/.well-known/keysend/" ++ username in
  try_except (get (PStr keysend_url) None) is_request_exception (mret None)
  (λ response,
  if blank (text response) then mret None else
  try_except (lift (json response)) is_decode_error (mret None)
  (λ data,
  status ← lift (py_get data (lit "status") PNone);
  rejected ← (if ne_str status (lit "OK") then mret true
              else tag ← lift (py_get data (lit "tag") PNone);
                   mret (ne_str tag (lit "keysend")));
  if rejected : bool then mret None else
  pk ← lift (py_get data (lit "pubkey") PNone);
  cd ← lift (py_get data (lit "customData") (PList []));
  mret (Some {| pubkey := pk; custom_data := cd |}))).

Definition resolve_lnurlp (lightning_address : str) (amount_msats : Z)
    (sender_name message : str) : M (option LnurlpResponse) :=
  if negb (str_contains (lit "@") lightning_address) then mret None else
  '(username, domain) ← lift (unpack2 (split1 (lit "@") lightning_address));
  let lnurl_url :=
    lit "https://" ++ domain ++ lit "/.well-known/lnurlp/" ++ username in
  try_except (get (PStr lnurl_url) None) is_request_exception (mret None)
  (λ lnurl_response,
  if blank (text lnurl_response) then mret None else
  try_except (lift (json lnurl_response)) is_decode_error (mret None)
  (λ lnurl_data,
  tag ← lift (py_get lnurl_data (lit "tag") PNone);
  if ne_str tag (lit "payRequest") then mret None else
  callback_url ← lift (py_get lnurl_data (lit "callback") PNone);
  if negb (truthy callback_url) then mret None else
  min_sendable ← lift (py_get lnurl_data (lit "minSendable") (PInt 0));
  max_sendable ← lift (py_get lnurl_data (lit "maxSendable")
                              (PFloat (FInf false)));
  rejected ← lift (out_of_range amount_msats min_sendable max_sendable);
  if rejected : bool then mret None else
  params ← lift (callback_params amount_msats sender_name message lnurl_data);
  try_except (get callback_url (Some params)) is_request_exception (mret None)
  (λ callback_response,
  if blank (text callback_response) then mret None else
  try_except (lift (json callback_response)) is_decode_error (mret None)
  (λ callback_data,
  pr ← lift (py_get callback_data (lit "pr") PNone);
  if negb (truthy pr) then mret None else
  mret (Some {| invoice := pr |}))))).

End Provider.

(** * Properties *)

(** ** Address parsing *)

Definition at_sign : char := 64%N.

(** The requests a run can issue. *)
Definition GET (t : Z) (target : pyval) (query : option (gmap str pyval)) : request :=
  {| req_method := lit "GET"; req_url := target;
     req_params := query; req_timeout := t |}.

Definition keysend_url (username domain : str) : pyval :=
  PStr (lit "https://" ++ domain ++ lit "/.well-known/keysend/" ++ username).

Definition lnurlp_url (username domain : str) : pyval :=
  PStr (lit "https://" ++ domain ++ lit "/.well-known/lnurlp/" ++ username).


(** ** Reading a discovery body *)

(** The four optional fields, with the defaults of lines 88, 89, 97, 101. *)
Definition min_sendable_of (d : gmap str pyval) : pyval :=
  default (PInt 0) (d !! lit "minSendable").

Definition max_sendable_of (d : gmap str pyval) : pyval :=
  default (PFloat (FInf false)) (d !! lit "maxSendable").

Definition payer_data_of (d : gmap str pyval) : pyval :=
  default (PDict ∅) (d !! lit "payerData").

Definition comment_allowed_of (pd : gmap str pyval) : pyval :=
  default (PInt 0) (pd !! lit "commentAllowed").

(** ** The two methods as functions of the transport's replies *)

(** What either method makes of a reply: the decoded body when there is one,
    [None] where the method returns [None], or the exception that escapes. *)
Definition decoded (reply : result response) : result (option pyval) :=
  match reply with
  | Raise e => if is_request_exception e then Ok None else Raise e
  | Ok r =>
      if blank (text r) then Ok None
      else match json r with
           | Raise e => if is_decode_error e then Ok None else Raise e
           | Ok data => Ok (Some data)
           end
  end.

(** Lines 51-57 on a decoded keysend body. *)
Definition keysend_of (data : pyval) : result (option KeysendResponse) :=
  match data with
  | PDict d =>
      if ne_str (default PNone (d !! lit "status")) (lit "OK")
         || ne_str (default PNone (d !! lit "tag")) (lit "keysend")
      then Ok None
      else Ok (Some {| pubkey := default PNone (d !! lit "pubkey");
                       custom_data := default (PList []) (d !! lit "customData") |})
  | _ => Raise AttributeError
  end.

(** Lines 81-103 on a decoded discovery body: [None], or the callback
    target with its query parameters. *)
Definition callback_of (amount_msats : Z) (sender_name message : str)
    (data : pyval) : result (option (pyval * gmap str pyval)) :=
  match data with
  | PDict d =>
      if ne_str (default PNone (d !! lit "tag")) (lit "payRequest") then Ok None
      else if negb (truthy (default PNone (d !! lit "callback"))) then Ok None
      else match out_of_range amount_msats
                   (min_sendable_of d) (max_sendable_of d) with
           | Raise e => Raise e
           | Ok true => Ok None
           | Ok false =>
               match callback_params amount_msats sender_name message data with
               | Raise e => Raise e
               | Ok params =>
                   Ok (Some (default PNone (d !! lit "callback"), params))
               end
           end
  | _ => Raise AttributeError
  end.

(** Lines 125-131 on a decoded callback body. *)
Definition invoice_of (data : pyval) : result (option LnurlpResponse) :=
  match data with
  | PDict d =>
      if negb (truthy (default PNone (d !! lit "pr"))) then Ok None
      else Ok (Some {| invoice := default PNone (d !! lit "pr") |})
  | _ => Raise AttributeError
  end.

(** Sequencing of two pure steps, the first of which may stop with [None]. *)
Definition and_then {A B} (r : result (option A)) (k : A → result (option B))
    : result (option B) :=
  match r with
  | Raise e => Raise e
  | Ok None => Ok None
  | Ok (Some a) => k a
  end.


(** ** Integer readings of the bounds *)

(** The integer a Python number stands for, when it stands for one:
    an int, a bool, or a float with an integral value. *)
Definition int_value (v : pyval) : option Z :=
  match v with
  | PInt z => Some z
  | PBool b => Some (Z.b2z b)
  | PFloat (FFin m e) =>
      if 0 <=? e then Some (m * 2 ^ e)
      else if m mod 2 ^ (- e) =? 0 then Some (m / 2 ^ (- e))
      else None
  | _ => None
  end.

(** An upper bound: an integer, or none at all (the float infinity). *)
Inductive bound :=
| Finite (z : Z)
| Unbounded.

Definition upper_bound (v : pyval) : option bound :=
  match v with
  | PFloat (FInf false) => Some Unbounded
  | _ => Finite <$> int_value v
  end.

Definition within (a : Z) (b : bound) : Prop :=
  match b with
  | Finite z => a ≤ z
  | Unbounded => True
  end.

Definition above (a : Z) (b : bound) : Prop :=
  match b with
  | Finite z => z < a
  | Unbounded => False
  end.

#[global] Instance above_dec a b : Decision (above a b).
Proof. destruct b; cbn [above]; apply _. Defined.

(** ** Well-typed bodies *)

Definition is_number (v : pyval) : bool :=
  match v with
  | PInt _ | PBool _ | PFloat _ => true
  | _ => false
  end.

(** The values of [commentAllowed] on which lines 102-103 do not raise for
    the given message: any value when the message is empty, otherwise an
    int, a bool, or a float that is not greater than 0. *)
Definition comment_typed (message : str) (v : pyval) : bool :=
  negb (truthy (PStr message)) ||
  match v with
  | PInt _ | PBool _ => true
  | PFloat f => negb (int_lt_float 0 f)
  | _ => false
  end.

(** A discovery object whose optional fields have the types the method
    computes with. *)
Definition discovery_typed (message : str) (d : gmap str pyval) : bool :=
  is_number (min_sendable_of d) && is_number (max_sendable_of d) &&
  match payer_data_of d with
  | PDict pd => comment_typed message (comment_allowed_of pd)
  | _ => false
  end.

(** A reply that is a transport failure, a blank body, a body that does not
    decode, or a JSON object accepted by [typed]. *)
Definition benign (typed : gmap str pyval → bool) (reply : result response)
    : bool :=
  match reply with
  | Raise e => is_request_exception e
  | Ok r =>
      blank (text r) ||
      match json r with
      | Raise e => is_decode_error e
      | Ok (PDict d) => typed d
      | Ok _ => false
      end
  end.

(** The replies of a transport serving lnurlp: discovery requests carry no
    query parameters, callback requests do. *)
Definition lnurlp_benign (message : str) (req : request)
    (reply : result response) : bool :=
  match req_params req with
  | None => benign (discovery_typed message) reply
  | Some _ => benign (λ _, true) reply
  end.

(** ** Transports used in examples *)

(** JSON objects written as lists of fields. In the responses below the
    text stands for the JSON text of the body; of the text itself the
    methods only test blankness. *)
Definition fields (l : list (string * pyval)) : gmap str pyval :=
  list_to_map (prod_map lit id <$> l).

Definition obj (l : list (string * pyval)) : pyval := PDict (fields l).

Definition jstr (x : string) : pyval := PStr (lit x).

(** The keysend discovery body of the end-to-end scenario. *)
Definition keysend_fields : gmap str pyval :=
  fields [("status", jstr "OK"); ("tag", jstr "keysend"); ("pubkey", jstr "02ab");
          ("customData", PList [obj [("key", jstr "k"); ("value", jstr "v")]])]%string.

Definition keysend_response : response :=
  {| text := lit "{...}"; json := Ok (PDict keysend_fields) |}.

Definition keysend_server (req : request) : result response :=
  Ok keysend_response.

(** The lnurlp discovery body of the end-to-end scenario, and the body of
    its callback. *)
Definition discovery_fields : gmap str pyval :=
  fields [("tag", jstr "payRequest"); ("callback", jstr "https://x/cb");
          ("minSendable", PInt 1000); ("maxSendable", PInt 500000);
          ("payerData", obj [("commentAllowed", PInt 5)])]%string.

Definition discovery_response : response :=
  {| text := lit "{...}"; json := Ok (PDict discovery_fields) |}.

Definition invoice_response : response :=
  {| text := lit "{...}"; json := Ok (obj [("pr", jstr "lnbc1")]%string) |}.

(** A server answering a request without query parameters with the given
    discovery response and any other with the invoice. *)
Definition lnurlp_server (discovery : response) (req : request)
    : result response :=
  match req_params req with
  | None => Ok discovery
  | Some _ => Ok invoice_response
  end.

(** A discovery body whose bounds are the wrong way round. *)
Definition inverted_fields : gmap str pyval :=
  fields [("tag", jstr "payRequest"); ("callback", jstr "https://x/cb");
          ("minSendable", PInt 10); ("maxSendable", PInt 5)]%string.

Definition inverted_response : response :=
  {| text := lit "{...}"; json := Ok (PDict inverted_fields) |}.

(** The [payerData] of the end-to-end scenario. *)
Definition comment_only : gmap str pyval :=
  fields [("commentAllowed", PInt 5)]%string.

(** A discovery body that accepts a name and gives [commentAllowed] as a
    string. *)
Definition name_and_text : gmap str pyval :=
  fields [("name", obj [("mandatory", PBool false)]);
          ("commentAllowed", jstr "5")]%string.

Definition text_limit_fields : gmap str pyval :=
  fields [("tag", jstr "payRequest"); ("callback", jstr "https://x/cb");
          ("payerData", PDict name_and_text)]%string.

Definition text_limit_response : response :=
  {| text := lit "{...}"; json := Ok (PDict text_limit_fields) |}.

(** A discovery body that accepts a name and a comment of 5 characters. *)
Definition name_and_comment : gmap str pyval :=
  fields [("name", obj [("mandatory", PBool false)]);
          ("commentAllowed", PInt 5)]%string.

Definition named_fields : gmap str pyval :=
  fields [("tag", jstr "payRequest"); ("callback", jstr "https://x/cb");
          ("minSendable", PInt 1000); ("maxSendable", PInt 500000);
          ("payerData", PDict name_and_comment)]%string.

Definition named_response : response :=
  {| text := lit "{...}"; json := Ok (PDict named_fields) |}.

(** A server whose body is the JSON list [[]]. *)
Definition list_server (req : request) : result response :=
  Ok {| text := lit "[]"; json := Ok (PList []) |}.

(** A transport that is down. *)
Definition dead_server (req : request) : result response :=
  Raise RequestException.

(** A transport that fails with an exception that is not a
    [RequestException]. *)
Definition broken_server (req : request) : result response :=
  Raise OtherException.

(** A discovery body of another LNURL kind, with bounds that are not
    numbers. *)
Definition withdraw_fields : gmap str pyval :=
  fields [("tag", jstr "withdrawRequest"); ("callback", jstr "https://x/cb");
          ("minSendable", jstr "low"); ("maxSendable", PNone)]%string.

Definition withdraw_response : response :=
  {| text := lit "{...}"; json := Ok (PDict withdraw_fields) |}.

(** A discovery body that declares neither bounds nor [payerData]. *)
Definition bare_fields : gmap str pyval :=
  fields [("tag", jstr "payRequest"); ("callback", jstr "https://x/cb")]%string.

Definition bare_response : response :=
  {| text := lit "{...}"; json := Ok (PDict bare_fields) |}.

(** ** The shape of a callback query *)

(** The queries lines 95-103 can build: [amount], then [name] and
    [comment] when accepted. *)
Definition built_query (amount : Z) (name : str) (with_name : bool)
    (comment : option str) : gmap str pyval :=
  let params : gmap str pyval :=
    if with_name
    then <[ lit "name" := PStr name ]> {[ lit "amount" := PInt amount ]}
    else {[ lit "amount" := PInt amount ]} in
  match comment with
  | Some c => <[ lit "comment" := PStr c ]> params
  | None => params
  end.

(** A discovery body whose [maxSendable] is a string. *)
Definition text_max_fields : gmap str pyval :=
  fields [("tag", jstr "payRequest"); ("callback", jstr "https://x/cb");
          ("minSendable", PInt 1000); ("maxSendable", jstr "500000")]%string.

Definition text_max_response : response :=
  {| text := lit "{...}"; json := Ok (PDict text_max_fields) |}.

(** ** Slice bounds *)

(** The integer a value stands for as a slice bound: an int, or a bool
    counted as 0 or 1; nothing else is accepted by [message[:v]] after
    [v > 0]. *)
Definition index_value (v : pyval) : option Z :=
  match v with
  | PInt n => Some n
  | PBool b => Some (Z.b2z b)
  | _ => None
  end.

(** A discovery body whose [commentAllowed] is the JSON number 5.0. *)
Definition float_limit : gmap str pyval :=
  fields [("commentAllowed", PFloat (FFin 5 0))]%string.

Definition float_limit_fields : gmap str pyval :=
  fields [("tag", jstr "payRequest"); ("callback", jstr "https://x/cb");
          ("minSendable", PInt 1000); ("maxSendable", PInt 500000);
          ("payerData", PDict float_limit)]%string.

Definition float_limit_response : response :=
  {| text := lit "{...}"; json := Ok (PDict float_limit_fields) |}.
(** Closed decidable facts, by evaluation. *)
Ltac by_evaluation := apply (bool_decide_unpack _); vm_compute; exact I.

Section Parsing.

Implicit Types s u d : str.

Lemma lit_at : lit "@" = [at_sign].
Proof. reflexivity. Qed.

Lemma contains_at s : str_contains [at_sign] s = true ↔ at_sign ∈ s.
Proof.
  induction s as [|c s IH]; cbn [str_contains startswith].
  - split; [discriminate | by intros ?%elem_of_nil].
  - rewrite elem_of_cons, <- IH, andb_true_r, orb_true_iff, N.eqb_eq.
    tauto.
Qed.

Lemma contains_at_false s : at_sign ∉ s → str_contains (lit "@") s = false.
Proof.
  rewrite lit_at, <- contains_at. by destruct (str_contains _ s).
Qed.

Lemma contains_at_true s : at_sign ∈ s → str_contains (lit "@") s = true.
Proof. rewrite lit_at. apply contains_at. Qed.

(** The cut is at the first [@]: nothing before it is an [@], everything
    after it is kept, further [@] included. *)
Lemma partition_first u d :
  at_sign ∉ u → str_partition [at_sign] (u ++ at_sign :: d) = Some (u, d).
Proof.
  induction u as [|c u IH]; intros Hu;
    cbn [str_partition startswith app length drop].
  - by rewrite N.eqb_refl.
  - apply not_elem_of_cons in Hu as [Hc Hu].
    rewrite andb_true_r.
    destruct (N.eqb_spec at_sign c) as [Heq|_]; [by destruct Hc|].
    by rewrite (IH Hu).
Qed.

Lemma split1_first u d :
  at_sign ∉ u → split1 (lit "@") (u ++ at_sign :: d) = [u; d].
Proof. intros Hu. unfold split1. by rewrite lit_at, partition_first. Qed.

(** Every string with an [@] has a first one. *)
Lemma first_at s :
  at_sign ∈ s → ∃ u d, s = u ++ at_sign :: d ∧ (at_sign ∉ u).
Proof.
  induction s as [|c s IH]; [by intros ?%elem_of_nil|].
  destruct (decide (c = at_sign)) as [->|Hc].
  - intros _. exists [], s. split; [done | apply not_elem_of_nil].
  - intros [?|Hs]%elem_of_cons; [done|].
    destruct (IH Hs) as (u & d & -> & Hu).
    exists (c :: u), d. split; [done|].
    apply not_elem_of_cons. split; [congruence | done].
Qed.

End Parsing.

Section Runs.

Variable requester : request → result response.
Variable t : Z.

Lemma resolve_keysend_no_at s log :
  at_sign ∉ s → resolve_keysend requester t s log = (Ok None, log).
Proof.
  intros Hs. unfold resolve_keysend. by rewrite contains_at_false.
Qed.

Lemma resolve_lnurlp_no_at s amount name msg log :
  at_sign ∉ s →
  resolve_lnurlp requester t s amount name msg log = (Ok None, log).
Proof.
  intros Hs. unfold resolve_lnurlp. by rewrite contains_at_false.
Qed.

Lemma resolve_keysend_at u d log :
  at_sign ∉ u →
  let req := GET t (keysend_url u d) None in
  resolve_keysend requester t (u ++ at_sign :: d) log
  = (and_then (decoded (requester req)) keysend_of, log ++ [req]).
Proof.
  intros Hu req. unfold resolve_keysend.
  rewrite contains_at_true, split1_first by (done || set_solver).
  cbn [negb unpack2].
  unfold try_except, mbind, M_bind, lift, get, mret, M_ret.
  fold (keysend_url u d). fold (GET t (keysend_url u d) None). fold req.
  destruct (requester req) as [r|e]; cbn [decoded and_then].
  2: { by destruct (is_request_exception e). }
  destruct (blank (text r)); [done|].
  destruct (json r) as [data|e]; cbn [and_then].
  2: { by destruct (is_decode_error e). }
  destruct data; try done.
  cbn [py_get keysend_of].
  destruct (ne_str _ (lit "OK")); [done|]. cbn [orb].
  by destruct (ne_str _ (lit "keysend")).
Qed.

Lemma resolve_lnurlp_at u d amount name msg log :
  at_sign ∉ u →
  let req := GET t (lnurlp_url u d) None in
  resolve_lnurlp requester t (u ++ at_sign :: d) amount name msg log
  = match and_then (decoded (requester req)) (callback_of amount name msg) with
    | Raise e => (Raise e, log ++ [req])
    | Ok None => (Ok None, log ++ [req])
    | Ok (Some (target, query)) =>
        let req' := GET t target (Some query) in
        (and_then (decoded (requester req')) invoice_of, log ++ [req; req'])
    end.
Proof.
  intros Hu req. unfold resolve_lnurlp.
  rewrite contains_at_true, split1_first by (done || set_solver).
  cbn [negb unpack2].
  unfold try_except, mbind, M_bind, lift, get, mret, M_ret.
  fold (lnurlp_url u d). fold (GET t (lnurlp_url u d) None). fold req.
  destruct (requester req) as [r|e]; cbn [decoded and_then].
  2: { by destruct (is_request_exception e). }
  destruct (blank (text r)); [done|].
  destruct (json r) as [data|e]; cbn [and_then].
  2: { by destruct (is_decode_error e). }
  destruct data as [| | | | |l|dd]; try done.
  cbn [py_get callback_of]. unfold min_sendable_of, max_sendable_of.
  destruct (ne_str _ (lit "payRequest")); [done|].
  destruct (truthy _); cbn [negb]; [|done].
  destruct (out_of_range _ _ _) as [[]|e]; try done.
  destruct (callback_params _ _ _ _) as [query|e]; [|done].
  match goal with |- context [GET t ?c (Some query)] =>
    fold (GET t c (Some query)); set (req' := GET t c (Some query)) end.
  rewrite <- app_assoc. cbn [app].
  destruct (requester req') as [r'|e]; cbn [decoded and_then].
  2: { by destruct (is_request_exception e). }
  destruct (blank (text r')); [done|].
  destruct (json r') as [data'|e]; cbn [and_then].
  2: { by destruct (is_decode_error e). }
  destruct data'; try done.
  cbn [py_get invoice_of].
  by destruct (truthy _).
Qed.

End Runs.

(** ** Facts about the Python operations *)

Lemma truthy_str s : truthy (PStr s) = true ↔ s ≠ [].
Proof.
  cbn [truthy]. unfold str_eqb.
  rewrite negb_true_iff, bool_decide_eq_false. tauto.
Qed.

Lemma truthy_str_false s : truthy (PStr s) = false ↔ s = [].
Proof.
  cbn [truthy]. unfold str_eqb.
  rewrite negb_false_iff, bool_decide_eq_true. tauto.
Qed.

Lemma ne_str_false v s : ne_str v s = false ↔ v = PStr s.
Proof.
  destruct v; cbn [ne_str]; try (split; [discriminate | congruence]).
  unfold str_eqb. rewrite negb_false_iff, bool_decide_eq_true.
  split; congruence.
Qed.

Lemma ne_str_default_false o s :
  ne_str (default PNone o) s = false ↔ o = Some (PStr s).
Proof.
  rewrite ne_str_false. destruct o as [v|]; cbn; split; congruence.
Qed.

Lemma int_lt_value a v z : int_value v = Some z → int_lt a v = Ok (a <? z).
Proof.
  destruct v as [| | |[| |m e]| | |]; cbn [int_value int_lt int_lt_float];
    try congruence.
  destruct (Z.leb_spec 0 e) as [He|He]; [congruence|].
  assert (0 < 2 ^ (- e)) as Hp by (apply Z.pow_pos_nonneg; lia).
  destruct (Z.eqb_spec (m mod 2 ^ (- e)) 0) as [Hm|]; [|congruence].
  intros [= <-]. f_equal.
  pose proof (Z.div_mod m (2 ^ (- e)) ltac:(lia)) as Hdm.
  rewrite Hm, Z.add_0_r in Hdm.
  destruct (Z.ltb_spec (a * 2 ^ (- e)) m), (Z.ltb_spec a (m / 2 ^ (- e)));
    try done; nia.
Qed.

Lemma int_gt_value a v z : int_value v = Some z → int_gt a v = Ok (z <? a).
Proof.
  destruct v as [| | |[| |m e]| | |]; cbn [int_value int_gt int_gt_float];
    try congruence.
  destruct (Z.leb_spec 0 e) as [He|He]; [congruence|].
  assert (0 < 2 ^ (- e)) as Hp by (apply Z.pow_pos_nonneg; lia).
  destruct (Z.eqb_spec (m mod 2 ^ (- e)) 0) as [Hm|]; [|congruence].
  intros [= <-]. f_equal.
  pose proof (Z.div_mod m (2 ^ (- e)) ltac:(lia)) as Hdm.
  rewrite Hm, Z.add_0_r in Hdm.
  destruct (Z.ltb_spec m (a * 2 ^ (- e))), (Z.ltb_spec (m / 2 ^ (- e)) a);
    try done; nia.
Qed.

Lemma int_gt_bound a v b :
  upper_bound v = Some b → int_gt a v = Ok (bool_decide (above a b)).
Proof.
  unfold upper_bound. intros Hb.
  assert (v = PFloat (FInf false) ∧ b = Unbounded
          ∨ ∃ z, int_value v = Some z ∧ b = Finite z) as [[-> ->]|(z & Hz & ->)].
  { destruct v as [| | |[|[]|]| | |];
      first [ left; split; congruence | right; by apply fmap_Some ]. }
  - done.
  - rewrite (int_gt_value _ _ _ Hz). cbn [above]. f_equal.
    destruct (Z.ltb_spec z a); [by rewrite bool_decide_eq_true_2
                               | by rewrite bool_decide_eq_false_2; [|lia]].
Qed.

(** The amount check, read on integer bounds. *)
Lemma out_of_range_in a vmin vmax lo hi :
  int_value vmin = Some lo → upper_bound vmax = Some hi →
  lo ≤ a → within a hi → out_of_range a vmin vmax = Ok false.
Proof.
  intros Hlo Hhi Hle Hin. unfold out_of_range.
  rewrite (int_lt_value _ _ _ Hlo), (int_gt_bound _ _ _ Hhi).
  destruct (Z.ltb_spec a lo); [lia|].
  rewrite bool_decide_eq_false_2; [done|].
  destruct hi; cbn in *; lia.
Qed.

Lemma out_of_range_below a vmin vmax lo :
  int_value vmin = Some lo → a < lo → out_of_range a vmin vmax = Ok true.
Proof.
  intros Hlo Hlt. unfold out_of_range. rewrite (int_lt_value _ _ _ Hlo).
  by destruct (Z.ltb_spec a lo); [|lia].
Qed.

Lemma out_of_range_above a vmin vmax lo hi :
  int_value vmin = Some lo → upper_bound vmax = Some hi →
  above a hi → out_of_range a vmin vmax = Ok true.
Proof.
  intros Hlo Hhi Hab. unfold out_of_range.
  rewrite (int_lt_value _ _ _ Hlo), (int_gt_bound _ _ _ Hhi).
  destruct (a <? lo); [done|]. by rewrite bool_decide_eq_true_2.
Qed.

(** ** Addresses without an at sign *)

(** C5: an address that contains no '@' makes both methods return [None]
    and leaves the list of transport calls as it was: the transport is not
    invoked. *)
Theorem no_at_sign_no_request requester t addr amount name msg log :
  at_sign ∉ addr →
  resolve_keysend requester t addr log = (Ok None, log)
  ∧ resolve_lnurlp requester t addr amount name msg log = (Ok None, log).
Proof.
  intros Haddr. split.
  - by apply resolve_keysend_no_at.
  - by apply resolve_lnurlp_no_at.
Qed.

Lemma no_at_sign_no_request_witness :
  resolve_keysend keysend_server 10 (lit "alice.example.com") [] = (Ok None, [])
  ∧ resolve_lnurlp keysend_server 10 (lit "alice.example.com") 2000
      (lit "bob") (lit "hi") [] = (Ok None, []).
Proof.
  apply no_at_sign_no_request. by_evaluation.
Defined.

(** ** Which addresses are resolved *)

(** C6 as stated fails: [a@b@c] has two '@', yet keysend resolution goes
    on to the request and returns a populated result. *)
Lemma two_at_signs_resolved :
  length (filter (λ c, c = at_sign) (lit "a@b@c")) = 2%nat
  ∧ ∃ k, resolve_keysend keysend_server 10 (lit "a@b@c") []
         = (Ok (Some k), [GET 10 (keysend_url (lit "a") (lit "b@c")) None]).
Proof. split; [reflexivity|]. eexists. vm_compute. reflexivity. Qed.

(** C6, amended: resolution goes past parsing (a request is issued) exactly
    when the address contains at least one '@'; an address with none makes
    both methods return [None]. *)
Theorem resolved_iff_at_sign requester t addr amount name msg :
  (at_sign ∈ addr ↔ snd (resolve_keysend requester t addr []) ≠ [])
  ∧ (at_sign ∈ addr
     ↔ snd (resolve_lnurlp requester t addr amount name msg []) ≠ [])
  ∧ (at_sign ∉ addr →
     fst (resolve_keysend requester t addr []) = Ok None
     ∧ fst (resolve_lnurlp requester t addr amount name msg []) = Ok None).
Proof.
  destruct (decide (at_sign ∈ addr)) as [Hin|Hout].
  - destruct (first_at _ Hin) as (u & d & -> & Hu).
    rewrite resolve_keysend_at, resolve_lnurlp_at by done.
    split_and!; [| | done].
    + split; [done | by intros _].
    + split; [|by intros _]. intros _.
      destruct (and_then _ _) as [[[]|]|]; done.
  - rewrite resolve_keysend_no_at, resolve_lnurlp_no_at by done.
    split_and!; [split; done | split; done | done].
Qed.

Lemma resolved_iff_at_sign_witness :
  (at_sign ∉ lit "alice.example.com")
  ∧ fst (resolve_keysend keysend_server 10 (lit "alice.example.com") [])
    = Ok None.
Proof.
  pose proof (resolved_iff_at_sign keysend_server 10
                (lit "alice.example.com") 2000 (lit "bob") (lit "hi"))
    as (_ & _ & H).
  assert (at_sign ∉ lit "alice.example.com") as Hout by by_evaluation.
  split; [exact Hout | exact (proj1 (H Hout))].
Defined.

(** ** The discovery URL *)

(** C10: for an address with an '@', the username is the text before the
    first '@' and the domain all the text after it; both are placed
    unchanged in the URL of the discovery request. *)
Theorem discovery_url_verbatim requester t addr amount name msg :
  at_sign ∈ addr →
  ∃ username domain,
    addr = username ++ at_sign :: domain ∧ (at_sign ∉ username)
    ∧ snd (resolve_keysend requester t addr [])
      = [GET t (PStr (lit "https://" ++ domain
                      ++ lit "/.well-known/keysend/" ++ username)) None]
    ∧ head (snd (resolve_lnurlp requester t addr amount name msg []))
      = Some (GET t (PStr (lit "https://" ++ domain
                           ++ lit "/.well-known/lnurlp/" ++ username)) None).
Proof.
  intros Hin. destruct (first_at _ Hin) as (u & d & -> & Hu).
  exists u, d. split_and!; [done | done | |].
  - by rewrite resolve_keysend_at.
  - rewrite resolve_lnurlp_at by done.
    by destruct (and_then _ _) as [[[]|]|].
Qed.

Lemma discovery_url_verbatim_witness :
  ∃ username domain,
    lit "a b/?@x@y/z ?q" = username ++ at_sign :: domain
    ∧ (at_sign ∉ username)
    ∧ snd (resolve_keysend keysend_server 10 (lit "a b/?@x@y/z ?q") [])
      = [GET 10 (PStr (lit "https://" ++ domain
                       ++ lit "/.well-known/keysend/" ++ username)) None]
    ∧ head (snd (resolve_lnurlp keysend_server 10 (lit "a b/?@x@y/z ?q")
                   2000 (lit "bob") (lit "hi") []))
      = Some (GET 10 (PStr (lit "https://" ++ domain
                            ++ lit "/.well-known/lnurlp/" ++ username)) None).
Proof.
  apply discovery_url_verbatim. by_evaluation.
Defined.

(** ** Keysend discovery *)

(** C7: when the keysend discovery body is a JSON object, the result is
    populated exactly when its [status] is "OK" and its [tag] is "keysend";
    the result then carries the object's [pubkey] ([None] when absent) and
    its [customData] (the empty list when absent). Otherwise the result is
    [None]. *)
Theorem keysend_populated_iff requester t username domain r d :
  at_sign ∉ username →
  requester (GET t (keysend_url username domain) None) = Ok r →
  blank (text r) = false →
  json r = Ok (PDict d) →
  let outcome :=
    fst (resolve_keysend requester t (username ++ at_sign :: domain) []) in
  ((∃ k, outcome = Ok (Some k))
   ↔ d !! lit "status" = Some (PStr (lit "OK"))
     ∧ d !! lit "tag" = Some (PStr (lit "keysend")))
  ∧ (∀ k, outcome = Ok (Some k) →
       pubkey k = default PNone (d !! lit "pubkey")
       ∧ custom_data k = default (PList []) (d !! lit "customData"))
  ∧ (outcome = Ok None ∨ ∃ k, outcome = Ok (Some k)).
Proof.
  intros Hu Hreq Hblank Hjson outcome. subst outcome.
  rewrite resolve_keysend_at by done. cbn [fst].
  rewrite Hreq. cbn [decoded]. rewrite Hblank, Hjson.
  cbn [and_then keysend_of].
  rewrite <- !ne_str_default_false.
  destruct (ne_str (default PNone (d !! lit "status")) _);
    [|destruct (ne_str (default PNone (d !! lit "tag")) _)]; cbn [orb].
  - split_and!; [|by intros k [=]|by left].
    split; [by intros [k [=]] | by intros [[=] _]].
  - split_and!; [|by intros k [=]|by left].
    split; [by intros [k [=]] | by intros [_ [=]]].
  - split_and!; [|by intros k [= <-]|right; by eexists].
    split; [done | intros _; by eexists].
Qed.

Lemma keysend_populated_iff_witness :
  let outcome :=
    fst (resolve_keysend keysend_server 10
           (lit "alice" ++ at_sign :: lit "example.com") []) in
  ((∃ k, outcome = Ok (Some k))
   ↔ keysend_fields !! lit "status" = Some (PStr (lit "OK"))
     ∧ keysend_fields !! lit "tag" = Some (PStr (lit "keysend")))
  ∧ (∀ k, outcome = Ok (Some k) →
       pubkey k = default PNone (keysend_fields !! lit "pubkey")
       ∧ custom_data k = default (PList []) (keysend_fields !! lit "customData"))
  ∧ (outcome = Ok None ∨ ∃ k, outcome = Ok (Some k)).
Proof.
  apply (keysend_populated_iff keysend_server 10 (lit "alice")
           (lit "example.com") keysend_response keysend_fields);
    [by_evaluation | reflexivity | reflexivity | reflexivity].
Defined.

(** ** The amount check *)

Section AmountCheck.

Variable requester : request → result response.
Variable t : Z.
Variables username domain : str.
Variable r : response.
Variable d : gmap str pyval.

Hypothesis Husername : at_sign ∉ username.
Hypothesis Hreply : requester (GET t (lnurlp_url username domain) None) = Ok r.
Hypothesis Hblank : blank (text r) = false.
Hypothesis Hjson : json r = Ok (PDict d).

(** A discovery object that rejects the amount ends the run with [None]
    after the one discovery request. *)
Lemma rejected_amount_stops amount name msg :
  out_of_range amount (min_sendable_of d) (max_sendable_of d) = Ok true →
  resolve_lnurlp requester t (username ++ at_sign :: domain) amount name msg []
  = (Ok None, [GET t (lnurlp_url username domain) None]).
Proof using Husername Hreply Hblank Hjson.
  intros Hout. rewrite resolve_lnurlp_at by done.
  rewrite Hreply. cbn [decoded]. rewrite Hblank, Hjson.
  cbn [and_then callback_of]. rewrite Hout.
  destruct (ne_str _ _); [done|]. by destruct (negb _).
Qed.

(** A discovery object that passes the three checks leads to the callback
    request, provided the parameters can be built. *)
Lemma accepted_amount_calls_back amount name msg target query :
  d !! lit "tag" = Some (PStr (lit "payRequest")) →
  d !! lit "callback" = Some target → truthy target = true →
  out_of_range amount (min_sendable_of d) (max_sendable_of d) = Ok false →
  callback_params amount name msg (PDict d) = Ok query →
  snd (resolve_lnurlp requester t (username ++ at_sign :: domain)
         amount name msg [])
  = [GET t (lnurlp_url username domain) None; GET t target (Some query)].
Proof using Husername Hreply Hblank Hjson.
  intros Htag Hcb Htruthy Hin Hquery. rewrite resolve_lnurlp_at by done.
  rewrite Hreply. cbn [decoded]. rewrite Hblank, Hjson.
  cbn [and_then callback_of].
  rewrite (proj2 (ne_str_default_false _ _) Htag), Hcb. cbn [default from_option id].
  rewrite Htruthy. cbn [negb]. by rewrite Hin, Hquery.
Qed.

End AmountCheck.



(** C2 as stated fails: with [minSendable] 10 and [maxSendable] 5 an amount
    equal to [minSendable] does not pass the check, and the run ends with
    [None] after the discovery request. *)
Lemma inverted_bounds_reject_min :
  inverted_fields !! lit "minSendable" = Some (PInt 10)
  ∧ inverted_fields !! lit "maxSendable" = Some (PInt 5)
  ∧ out_of_range 10 (min_sendable_of inverted_fields)
      (max_sendable_of inverted_fields) = Ok true
  ∧ resolve_lnurlp (lnurlp_server inverted_response) 10 (lit "alice@example.com")
      10 (lit "bob") (lit "hi") []
    = (Ok None, [GET 10 (lnurlp_url (lit "alice") (lit "example.com")) None]).
Proof. repeat split; vm_compute; reflexivity. Qed.

(** C2, amended: the discovery object's [minSendable] defaults to 0 and its
    [maxSendable] to no bound at all. When the bounds are integers with
    [minSendable] not above [maxSendable], the check is inclusive: an amount
    equal to either bound passes it, while one less than [minSendable] and
    one more than [maxSendable] make the run return [None]. *)
Theorem amount_bounds_inclusive requester t username domain r d lo hi name msg :
  at_sign ∉ username →
  requester (GET t (lnurlp_url username domain) None) = Ok r →
  blank (text r) = false →
  json r = Ok (PDict d) →
  int_value (min_sendable_of d) = Some lo →
  upper_bound (max_sendable_of d) = Some hi →
  within lo hi →
  let check a := out_of_range a (min_sendable_of d) (max_sendable_of d) in
  let run a :=
    fst (resolve_lnurlp requester t (username ++ at_sign :: domain) a name msg [])
  in
  (d !! lit "minSendable" = None → lo = 0)
  ∧ (d !! lit "maxSendable" = None → hi = Unbounded)
  ∧ check lo = Ok false
  ∧ run (lo - 1) = Ok None
  ∧ (∀ h, hi = Finite h → check h = Ok false ∧ run (h + 1) = Ok None)
  ∧ (hi = Unbounded → ∀ a, lo ≤ a → check a = Ok false).
Proof.
  intros Hu Hreq Hblank Hjson Hlo Hhi Hle check run. subst check run.
  split_and!.
  - intros Hnone. unfold min_sendable_of in Hlo. rewrite Hnone in Hlo.
    cbn in Hlo. congruence.
  - intros Hnone. unfold max_sendable_of in Hhi. rewrite Hnone in Hhi.
    cbn in Hhi. congruence.
  - by apply (out_of_range_in _ _ _ lo hi).
  - rewrite (rejected_amount_stops _ _ _ _ r d); try done.
    apply (out_of_range_below _ _ _ lo); [done | lia].
  - intros h ->. cbn [within] in Hle. split.
    + apply (out_of_range_in _ _ _ lo (Finite h)); try done. cbn. lia.
    + rewrite (rejected_amount_stops _ _ _ _ r d); try done.
      apply (out_of_range_above _ _ _ lo (Finite h)); try done. cbn. lia.
  - intros -> a Ha. by apply (out_of_range_in _ _ _ lo Unbounded).
Qed.

Lemma amount_bounds_inclusive_witness :
  let d := discovery_fields in
  let check a := out_of_range a (min_sendable_of d) (max_sendable_of d) in
  let run a :=
    fst (resolve_lnurlp (lnurlp_server discovery_response) 10
           (lit "alice" ++ at_sign :: lit "example.com") a (lit "bob")
           (lit "hi") [])
  in
  (d !! lit "minSendable" = None → 1000 = 0)
  ∧ (d !! lit "maxSendable" = None → Finite 500000 = Unbounded)
  ∧ check 1000 = Ok false
  ∧ run (1000 - 1) = Ok None
  ∧ (∀ h, Finite 500000 = Finite h → check h = Ok false ∧ run (h + 1) = Ok None)
  ∧ (Finite 500000 = Unbounded → ∀ a, 1000 ≤ a → check a = Ok false).
Proof.
  apply (amount_bounds_inclusive (lnurlp_server discovery_response) 10
           (lit "alice") (lit "example.com") discovery_response
           discovery_fields 1000 (Finite 500000) (lit "bob") (lit "hi"));
    [by_evaluation | reflexivity | reflexivity | reflexivity | reflexivity
    | reflexivity | cbn; lia].
Defined.

(** ** The callback parameters *)

Lemma comment_accepted_int msg n :
  comment_accepted msg (PInt n) = Ok (truthy (PStr msg) && (0 <? n)).
Proof. unfold comment_accepted. by destruct (truthy (PStr msg)). Qed.

Lemma comment_typed_ok msg v :
  comment_typed msg v = true →
  match comment_accepted msg v with
  | Ok true => ∃ c, py_slice_to msg v = Ok c
  | Ok false => True
  | Raise _ => False
  end.
Proof.
  unfold comment_typed, comment_accepted.
  destruct (truthy (PStr msg)); cbn [negb orb]; [|done].
  destruct v as [|[]|z|f| | |]; cbn [gt_zero py_slice_to]; try done.
  - intros _. by eexists.
  - intros _. destruct (0 <? z); [by eexists | done].
  - intros Hf. by rewrite (proj1 (negb_true_iff _) Hf).
Qed.

(** Lines 95-103 when [payerData] is an object (or absent). *)
Lemma callback_params_object amount name msg d pd :
  payer_data_of d = PDict pd →
  callback_params amount name msg (PDict d)
  = let params : gmap str pyval :=
      if truthy (PStr name) && bool_decide (is_Some (pd !! lit "name"))
      then <[ lit "name" := PStr name ]> {[ lit "amount" := PInt amount ]}
      else {[ lit "amount" := PInt amount ]} in
    match comment_accepted msg (comment_allowed_of pd) with
    | Raise e => Raise e
    | Ok false => Ok params
    | Ok true =>
        match py_slice_to msg (comment_allowed_of pd) with
        | Raise e => Raise e
        | Ok comment => Ok (<[ lit "comment" := PStr comment ]> params)
        end
    end.
Proof.
  intros Hpd. unfold callback_params. cbn [py_get].
  fold (payer_data_of d). rewrite Hpd. cbn [py_get].
  fold (comment_allowed_of pd).
  unfold name_accepted. cbn [str_in].
  by destruct (truthy (PStr name)), (bool_decide _).
Qed.

Lemma key_name_amount : lit "name" ≠ lit "amount".
Proof. by_evaluation. Qed.

Lemma key_comment_amount : lit "comment" ≠ lit "amount".
Proof. by_evaluation. Qed.

Lemma key_comment_name : lit "comment" ≠ lit "name".
Proof. by_evaluation. Qed.

(** The two optional parameters of a query built by lines 95-103. *)
Lemma callback_params_name amount name msg d pd query :
  payer_data_of d = PDict pd →
  callback_params amount name msg (PDict d) = Ok query →
  query !! lit "name"
  = if truthy (PStr name) && bool_decide (is_Some (pd !! lit "name"))
    then Some (PStr name) else None.
Proof.
  intros Hpd. rewrite (callback_params_object _ _ _ _ _ Hpd). cbn zeta.
  generalize (truthy (PStr name) && bool_decide (is_Some (pd !! lit "name"))).
  intros with_name.
  assert ((if with_name
           then <[ lit "name" := PStr name ]> {[ lit "amount" := PInt amount ]}
           else ({[ lit "amount" := PInt amount ]} : gmap str pyval))
          !! lit "name"
          = if with_name then Some (PStr name) else None) as Hbase.
  { destruct with_name; [by rewrite lookup_insert_eq|].
    by rewrite lookup_singleton_ne by (apply not_eq_sym, key_name_amount). }
  destruct (comment_accepted _ _) as [[]|]; [|by intros [= <-]|done].
  destruct (py_slice_to _ _); [intros [= <-]|done].
  by rewrite lookup_insert_ne by apply key_comment_name.
Qed.

Lemma callback_params_comment amount name msg d pd n :
  payer_data_of d = PDict pd →
  index_value (comment_allowed_of pd) = Some n →
  ∃ query,
    callback_params amount name msg (PDict d) = Ok query
    ∧ query !! lit "comment"
      = if truthy (PStr msg) && (0 <? n)
        then Some (PStr (take (Z.to_nat n) msg)) else None.
Proof.
  intros Hpd Hn. rewrite (callback_params_object _ _ _ _ _ Hpd). cbn zeta.
  generalize (truthy (PStr name) && bool_decide (is_Some (pd !! lit "name"))).
  intros with_name.
  assert ((if with_name
           then <[ lit "name" := PStr name ]> {[ lit "amount" := PInt amount ]}
           else ({[ lit "amount" := PInt amount ]} : gmap str pyval))
          !! lit "comment" = None) as Hbase.
  { destruct with_name.
    - rewrite lookup_insert_ne by (apply not_eq_sym, key_comment_name).
      by rewrite lookup_singleton_ne by (apply not_eq_sym, key_comment_amount).
    - by rewrite lookup_singleton_ne by (apply not_eq_sym, key_comment_amount). }
  assert (comment_accepted msg (comment_allowed_of pd)
          = Ok (truthy (PStr msg) && (0 <? n))
          ∧ py_slice_to msg (comment_allowed_of pd) = Ok (slice_to msg n))
    as [-> ->].
  { unfold comment_accepted.
    destruct (comment_allowed_of pd) as [|b|k| | | |]; try done;
      injection Hn as <-; cbn [gt_zero py_slice_to]; (split; [|done]).
    - destruct (truthy (PStr msg)); [|done]. by destruct b.
    - by destruct (truthy (PStr msg)). }
  destruct (truthy (PStr msg) && (0 <? n)) eqn:Hyes.
  - eexists. split; [done|]. rewrite lookup_insert_eq.
    apply andb_true_iff in Hyes as [_ Hpos%Z.ltb_lt].
    unfold slice_to. by destruct (Z.ltb_spec n 0); [lia|].
  - eexists. split; [done|]. exact Hbase.
Qed.

(** A comment in the query means that lines 102-103 added it. *)
Lemma callback_params_comment_only amount name msg d pd query :
  payer_data_of d = PDict pd →
  callback_params amount name msg (PDict d) = Ok query →
  is_Some (query !! lit "comment") →
  msg ≠ [] ∧ gt_zero (comment_allowed_of pd) = Ok true.
Proof.
  intros Hpd. rewrite (callback_params_object _ _ _ _ _ Hpd). cbn zeta.
  generalize (truthy (PStr name) && bool_decide (is_Some (pd !! lit "name"))).
  intros with_name.
  assert ((if with_name
           then <[ lit "name" := PStr name ]> {[ lit "amount" := PInt amount ]}
           else ({[ lit "amount" := PInt amount ]} : gmap str pyval))
          !! lit "comment" = None) as Hbase.
  { destruct with_name.
    - rewrite lookup_insert_ne by (apply not_eq_sym, key_comment_name).
      by rewrite lookup_singleton_ne by (apply not_eq_sym, key_comment_amount).
    - by rewrite lookup_singleton_ne by (apply not_eq_sym, key_comment_amount). }
  destruct (comment_accepted msg (comment_allowed_of pd)) as [[]|] eqn:Hacc;
    [|intros [= <-]; rewrite Hbase; by intros [? [=]]|done].
  intros _ _. unfold comment_accepted in Hacc.
  destruct (truthy (PStr msg)) eqn:Hmsg; [|done].
  by apply truthy_str in Hmsg.
Qed.

(** When the parameters cannot be built the run raises after the
    discovery request. *)
Lemma failed_params_stop requester t username domain r d target
    amount name msg e :
  at_sign ∉ username →
  requester (GET t (lnurlp_url username domain) None) = Ok r →
  blank (text r) = false →
  json r = Ok (PDict d) →
  d !! lit "tag" = Some (PStr (lit "payRequest")) →
  d !! lit "callback" = Some target → truthy target = true →
  out_of_range amount (min_sendable_of d) (max_sendable_of d) = Ok false →
  callback_params amount name msg (PDict d) = Raise e →
  resolve_lnurlp requester t (username ++ at_sign :: domain) amount name msg []
  = (Raise e, [GET t (lnurlp_url username domain) None]).
Proof.
  intros Hu Hreq Hblank Hjson Htag Hcb Htruthy Hin Hquery.
  rewrite resolve_lnurlp_at by done. cbn zeta.
  rewrite Hreq. cbn [decoded]. rewrite Hblank, Hjson.
  cbn [and_then callback_of].
  rewrite (proj2 (ne_str_default_false _ _) Htag), Hcb.
  cbn [default from_option id]. rewrite Htruthy. cbn [negb].
  by rewrite Hin, Hquery.
Qed.

(** C3 as stated fails: with [commentAllowed] the JSON number 5.0 the
    discovery object passes the tag, callback and amount checks, the message
    is not empty and [commentAllowed > 0] holds, yet no comment is sent: the
    slice [message[:5.0]] raises [TypeError], for a message longer than 5
    characters and for a shorter one alike, and the run ends after the
    discovery request. *)
Lemma float_limit_raises :
  float_limit_fields !! lit "tag" = Some (PStr (lit "payRequest"))
  ∧ truthy (default PNone (float_limit_fields !! lit "callback")) = true
  ∧ out_of_range 2000 (min_sendable_of float_limit_fields)
      (max_sendable_of float_limit_fields) = Ok false
  ∧ payer_data_of float_limit_fields = PDict float_limit
  ∧ comment_allowed_of float_limit = PFloat (FFin 5 0)
  ∧ gt_zero (comment_allowed_of float_limit) = Ok true
  ∧ resolve_lnurlp (lnurlp_server float_limit_response) 10
      (lit "alice@example.com") 2000 (lit "") (lit "hello world") []
    = (Raise TypeError,
       [GET 10 (lnurlp_url (lit "alice") (lit "example.com")) None])
  ∧ resolve_lnurlp (lnurlp_server float_limit_response) 10
      (lit "alice@example.com") 2000 (lit "") (lit "hi") []
    = (Raise TypeError,
       [GET 10 (lnurlp_url (lit "alice") (lit "example.com")) None]).
Proof. split_and!; vm_compute; reflexivity. Qed.

(** C3, amended: once the discovery object has passed the tag, callback and
    amount checks (its [payerData] an object or absent), a request carries a
    [comment] parameter only when the message is non-empty and
    [commentAllowed > 0]. When [commentAllowed] is an integer [n] (a JSON
    integer, a boolean counted as 0 or 1, or absent and then 0), the
    callback request is issued without any exception, its [comment] is
    present exactly when the message is non-empty and [n > 0], and it is
    then the message itself when the message has at most [n] characters and
    exactly its first [n] characters when it is longer. *)
Theorem comment_truncated requester t username domain r d target pd
    amount name msg :
  at_sign ∉ username →
  requester (GET t (lnurlp_url username domain) None) = Ok r →
  blank (text r) = false →
  json r = Ok (PDict d) →
  d !! lit "tag" = Some (PStr (lit "payRequest")) →
  d !! lit "callback" = Some target → truthy target = true →
  out_of_range amount (min_sendable_of d) (max_sendable_of d) = Ok false →
  payer_data_of d = PDict pd →
  let requests :=
    snd (resolve_lnurlp requester t (username ++ at_sign :: domain)
           amount name msg []) in
  (∀ req query,
     req ∈ requests → req_params req = Some query →
     is_Some (query !! lit "comment") →
     msg ≠ [] ∧ gt_zero (comment_allowed_of pd) = Ok true)
  ∧ (∀ n, index_value (comment_allowed_of pd) = Some n →
     ∃ query,
       requests
       = [GET t (lnurlp_url username domain) None; GET t target (Some query)]
       ∧ (is_Some (query !! lit "comment") ↔ msg ≠ [] ∧ 0 < n)
       ∧ (msg ≠ [] → 0 < n → Z.of_nat (length msg) ≤ n →
          query !! lit "comment" = Some (PStr msg))
       ∧ (msg ≠ [] → 0 < n → n < Z.of_nat (length msg) →
          ∃ c, query !! lit "comment" = Some (PStr c)
               ∧ c = take (Z.to_nat n) msg ∧ Z.of_nat (length c) = n)).
Proof.
  intros Hu Hreq Hblank Hjson Htag Hcb Htruthy Hin Hpd requests.
  subst requests. split.
  - intros req query.
    destruct (callback_params amount name msg (PDict d)) as [built|e] eqn:Hbuilt.
    + rewrite (accepted_amount_calls_back _ _ _ _ r d Hu Hreq Hblank Hjson
                 _ _ _ _ built Htag Hcb Htruthy Hin Hbuilt).
      intros [->|[->|[]%elem_of_nil]%elem_of_cons]%elem_of_cons; [done|].
      cbn [req_params GET]. intros [= <-].
      by apply (callback_params_comment_only amount name msg d pd).
    + rewrite (failed_params_stop _ _ _ _ r d target _ _ _ e) by done.
      cbn [snd]. by intros ->%list_elem_of_singleton.
  - intros n Hn.
    destruct (callback_params_comment amount name msg d pd n Hpd Hn)
      as (query & Hquery & Hcomment).
    exists query. split.
    { by apply (accepted_amount_calls_back _ _ _ _ r d). }
    rewrite Hcomment.
    destruct (truthy (PStr msg)) eqn:Hmsg;
      [apply truthy_str in Hmsg | apply truthy_str_false in Hmsg];
      destruct (Z.ltb_spec 0 n) as [Hpos|Hpos]; cbn [andb].
    + split_and!.
      * split; [done | by eexists].
      * intros _ _ Hlen. by rewrite take_ge by lia.
      * intros _ _ Hlen. eexists. split_and!; [done | done |].
        rewrite length_take. lia.
    + split_and!; [|lia|lia]. split; [by intros [? [=]] | lia].
    + split_and!; [|done|done]. split; [by intros [? [=]] | by intros [? _]].
    + split_and!; [|done|done]. split; [by intros [? [=]] | by intros [? _]].
Qed.

Lemma comment_truncated_witness :
  let requests :=
    snd (resolve_lnurlp (lnurlp_server discovery_response) 10
           (lit "alice" ++ at_sign :: lit "example.com") 2000 (lit "")
           (lit "hello world") []) in
  (∀ req query,
     req ∈ requests → req_params req = Some query →
     is_Some (query !! lit "comment") →
     lit "hello world" ≠ [] ∧ gt_zero (comment_allowed_of comment_only) = Ok true)
  ∧ ∃ query,
      requests
      = [GET 10 (lnurlp_url (lit "alice") (lit "example.com")) None;
         GET 10 (jstr "https://x/cb") (Some query)]
      ∧ (is_Some (query !! lit "comment") ↔ lit "hello world" ≠ [] ∧ 0 < 5)
      ∧ (lit "hello world" ≠ [] → 0 < 5 →
         Z.of_nat (length (lit "hello world")) ≤ 5 →
         query !! lit "comment" = Some (PStr (lit "hello world")))
      ∧ (lit "hello world" ≠ [] → 0 < 5 →
         5 < Z.of_nat (length (lit "hello world")) →
         ∃ c, query !! lit "comment" = Some (PStr c)
              ∧ c = take (Z.to_nat 5) (lit "hello world")
              ∧ Z.of_nat (length c) = 5).
Proof.
  intros requests.
  assert (at_sign ∉ lit "alice") as Hu by by_evaluation.
  pose proof (comment_truncated (lnurlp_server discovery_response) 10
                (lit "alice") (lit "example.com") discovery_response
                discovery_fields (jstr "https://x/cb") comment_only 2000
                (lit "") (lit "hello world") Hu eq_refl eq_refl eq_refl
                eq_refl eq_refl eq_refl eq_refl eq_refl) as [Honly Hint].
  split; [exact Honly | exact (Hint 5 eq_refl)].
Defined.

(** C4 as stated fails: this discovery object passes the tag, callback and
    amount checks, the sender name is not empty and [payerData] has a [name]
    field, yet no callback request carries the name: [commentAllowed] is a
    string, comparing it with 0 raises, and the run ends after the discovery
    request. *)
Lemma name_lost_to_exception :
  text_limit_fields !! lit "tag" = Some (PStr (lit "payRequest"))
  ∧ truthy (default PNone (text_limit_fields !! lit "callback")) = true
  ∧ out_of_range 2000 (min_sendable_of text_limit_fields)
      (max_sendable_of text_limit_fields) = Ok false
  ∧ payer_data_of text_limit_fields = PDict name_and_text
  ∧ is_Some (name_and_text !! lit "name")
  ∧ resolve_lnurlp (lnurlp_server text_limit_response) 10
      (lit "alice@example.com") 2000 (lit "bob") (lit "hi") []
    = (Raise TypeError,
       [GET 10 (lnurlp_url (lit "alice") (lit "example.com")) None]).
Proof.
  split_and!; try (vm_compute; reflexivity).
  by_evaluation.
Qed.

(** C4, amended: when the discovery object passes the tag, callback and
    amount checks, its [payerData] is an object (or absent) and its
    [commentAllowed] is one the comment step accepts (message empty, or an
    integer, a boolean, or a float not above 0), the callback request is
    issued and carries a [name] parameter if and only if the sender name is
    not empty and [payerData] has a [name] field; the parameter is then the
    sender name. *)
Theorem name_sent_iff requester t username domain r d target pd
    amount name msg :
  at_sign ∉ username →
  requester (GET t (lnurlp_url username domain) None) = Ok r →
  blank (text r) = false →
  json r = Ok (PDict d) →
  d !! lit "tag" = Some (PStr (lit "payRequest")) →
  d !! lit "callback" = Some target → truthy target = true →
  out_of_range amount (min_sendable_of d) (max_sendable_of d) = Ok false →
  payer_data_of d = PDict pd →
  comment_typed msg (comment_allowed_of pd) = true →
  ∃ query,
    snd (resolve_lnurlp requester t (username ++ at_sign :: domain)
           amount name msg [])
    = [GET t (lnurlp_url username domain) None; GET t target (Some query)]
    ∧ (is_Some (query !! lit "name")
       ↔ name ≠ [] ∧ is_Some (pd !! lit "name"))
    ∧ (∀ v, query !! lit "name" = Some v → v = PStr name).
Proof.
  intros Hu Hreq Hblank Hjson Htag Hcb Htruthy Hin Hpd Htyped.
  assert (∃ query, callback_params amount name msg (PDict d) = Ok query)
    as [query Hquery].
  { rewrite (callback_params_object _ _ _ _ _ Hpd). cbn zeta.
    pose proof (comment_typed_ok _ _ Htyped) as Hok.
    destruct (comment_accepted _ _) as [[]|]; [|by eexists|done].
    destruct Hok as [c ->]. by eexists. }
  exists query. split.
  { by apply (accepted_amount_calls_back _ _ _ _ r d). }
  rewrite (callback_params_name _ _ _ _ _ _ Hpd Hquery).
  destruct (truthy (PStr name)) eqn:Hname;
    [apply truthy_str in Hname | apply truthy_str_false in Hname];
    cbn [andb].
  - destruct (decide (is_Some (pd !! lit "name"))) as [Hsome|Hnone].
    + rewrite bool_decide_eq_true_2 by done.
      split; [split; [done | by eexists] | by intros v [= <-]].
    + rewrite bool_decide_eq_false_2 by done.
      split; [split; [by intros [? [=]] | by intros [_ ?]] | done].
  - split; [split; [by intros [? [=]] | by intros [? _]] | done].
Qed.

Lemma name_sent_iff_witness :
  ∃ query,
    snd (resolve_lnurlp (lnurlp_server named_response) 10
           (lit "alice" ++ at_sign :: lit "example.com") 2000 (lit "bob")
           (lit "hello world") [])
    = [GET 10 (lnurlp_url (lit "alice") (lit "example.com")) None;
       GET 10 (jstr "https://x/cb") (Some query)]
    ∧ (is_Some (query !! lit "name")
       ↔ lit "bob" ≠ [] ∧ is_Some (name_and_comment !! lit "name"))
    ∧ (∀ v, query !! lit "name" = Some v → v = PStr (lit "bob")).
Proof.
  apply (name_sent_iff (lnurlp_server named_response) 10 (lit "alice")
           (lit "example.com") named_response named_fields
           (jstr "https://x/cb") name_and_comment 2000 (lit "bob")
           (lit "hello world"));
    [by_evaluation | reflexivity..].
Defined.

(** ** Exceptions *)

Lemma benign_decoded typed reply :
  benign typed reply = true →
  decoded reply = Ok None
  ∨ ∃ d, decoded reply = Ok (Some (PDict d)) ∧ typed d = true.
Proof.
  destruct reply as [r|e]; cbn [benign decoded].
  2: { intros ->. by left. }
  destruct (blank (text r)); cbn [orb]; [by left|].
  destruct (json r) as [[]|e]; try done.
  - intros Ht. right. by eexists.
  - intros ->. by left.
Qed.

Lemma keysend_of_object d : ∃ k, keysend_of (PDict d) = Ok k.
Proof. cbn [keysend_of]. destruct (_ || _); by eexists. Qed.

Lemma invoice_of_object d : ∃ k, invoice_of (PDict d) = Ok k.
Proof. cbn [invoice_of]. destruct (negb _); by eexists. Qed.

Lemma out_of_range_numbers a vmin vmax :
  is_number vmin = true → is_number vmax = true →
  ∃ b, out_of_range a vmin vmax = Ok b.
Proof.
  unfold out_of_range.
  destruct vmin; try done; destruct vmax; try done; intros _ _;
    cbn [int_lt int_gt]; destruct (_ : bool); by eexists.
Qed.

Lemma callback_of_typed amount name msg d :
  discovery_typed msg d = true →
  ∃ o, callback_of amount name msg (PDict d) = Ok o.
Proof.
  unfold discovery_typed. intros [[Hmin Hmax]%andb_true_iff Hpd]%andb_true_iff.
  cbn [callback_of].
  destruct (ne_str _ _); [by eexists|].
  destruct (negb _); [by eexists|].
  destruct (out_of_range_numbers amount _ _ Hmin Hmax) as [[] ->];
    [by eexists|].
  destruct (payer_data_of d) as [| | | | | |pd] eqn:Hobj; try done.
  rewrite (callback_params_object _ _ _ _ _ Hobj). cbn zeta.
  pose proof (comment_typed_ok _ _ Hpd) as Hok.
  destruct (comment_accepted _ _) as [[]|]; [|by eexists|done].
  destruct Hok as [c ->]. by eexists.
Qed.

(** C1 as stated fails: a body that is valid JSON but not an object makes
    both methods raise [AttributeError] at the first [.get]. *)
Lemma list_body_raises :
  resolve_keysend list_server 10 (lit "alice@example.com") []
  = (Raise AttributeError,
     [GET 10 (keysend_url (lit "alice") (lit "example.com")) None])
  ∧ resolve_lnurlp list_server 10 (lit "alice@example.com") 2000 (lit "bob")
      (lit "hi") []
    = (Raise AttributeError,
       [GET 10 (lnurlp_url (lit "alice") (lit "example.com")) None]).
Proof. split; vm_compute; reflexivity. Qed.

(** C1, amended: when every reply of the transport is a transport failure
    ([RequestException]), a blank body, a body that does not decode, or a
    JSON object (for lnurlp discovery: one whose [minSendable] and
    [maxSendable] are numbers, whose [payerData] is an object and whose
    [commentAllowed] the comment step accepts), both methods return a result
    or [None] and raise nothing; and they return [None] whenever one of the
    requests they made was answered by a failure, a blank body or a body
    that does not decode. *)
Theorem benign_transport_never_raises requester t addr amount name msg :
  ((∀ req, benign (λ _, true) (requester req) = true) →
   ∃ k, fst (resolve_keysend requester t addr []) = Ok k
        ∧ ∀ req, req ∈ snd (resolve_keysend requester t addr []) →
                 decoded (requester req) = Ok None → k = None)
  ∧ ((∀ req, lnurlp_benign msg req (requester req) = true) →
     ∃ k, fst (resolve_lnurlp requester t addr amount name msg []) = Ok k
          ∧ ∀ req,
              req ∈ snd (resolve_lnurlp requester t addr amount name msg []) →
              decoded (requester req) = Ok None → k = None).
Proof.
  destruct (decide (at_sign ∈ addr)) as [Hin|Hout].
  2: { rewrite resolve_keysend_no_at, resolve_lnurlp_no_at by done.
       split; intros _; exists None; split; try done;
         by intros req ?%elem_of_nil. }
  destruct (first_at _ Hin) as (u & d & -> & Hu).
  rewrite resolve_keysend_at, resolve_lnurlp_at by done. cbn zeta.
  split; intros Hbenign.
  - cbn [fst snd app].
    destruct (benign_decoded _ _ (Hbenign (GET t (keysend_url u d) None)))
      as [Hnone|(o & Hsome & _)].
    + rewrite Hnone. exists None. by split.
    + rewrite Hsome. cbn [and_then].
      destruct (keysend_of_object o) as [k Hk]. rewrite Hk.
      exists k. split; [done|].
      intros req ->%list_elem_of_singleton. by rewrite Hsome.
  - pose proof (Hbenign (GET t (lnurlp_url u d) None)) as Hfirst.
    unfold lnurlp_benign in Hfirst. cbn [req_params GET] in Hfirst.
    destruct (benign_decoded _ _ Hfirst) as [Hnone|(o & Hsome & Htyped)].
    { rewrite Hnone. exists None. by split. }
    rewrite Hsome. cbn [and_then].
    destruct (callback_of_typed amount name msg o Htyped) as [[[target query]|] ->].
    2: { exists None. by split. }
    cbn [fst snd app].
    pose proof (Hbenign (GET t target (Some query))) as Hsecond.
    unfold lnurlp_benign in Hsecond. cbn [req_params GET] in Hsecond.
    destruct (benign_decoded _ _ Hsecond) as [Hnone'|(o' & Hsome' & _)].
    { rewrite Hnone'. exists None. by split. }
    rewrite Hsome'. cbn [and_then].
    destruct (invoice_of_object o') as [k Hk]. rewrite Hk.
    exists k. split; [done|].
    intros req [->|[->|[]%elem_of_nil]%elem_of_cons]%elem_of_cons; congruence.
Qed.

Lemma benign_transport_never_raises_witness :
  (∃ k, fst (resolve_keysend dead_server 10 (lit "alice@example.com") []) = Ok k
        ∧ ∀ req,
            req ∈ snd (resolve_keysend dead_server 10
                         (lit "alice@example.com") []) →
            decoded (dead_server req) = Ok None → k = None)
  ∧ (∃ k, fst (resolve_lnurlp (lnurlp_server discovery_response) 10
                 (lit "alice@example.com") 2000 (lit "bob") (lit "hi") [])
          = Ok k
          ∧ ∀ req,
              req ∈ snd (resolve_lnurlp (lnurlp_server discovery_response) 10
                           (lit "alice@example.com") 2000 (lit "bob")
                           (lit "hi") []) →
              decoded (lnurlp_server discovery_response req) = Ok None →
              k = None).
Proof.
  split.
  - apply (benign_transport_never_raises dead_server 10
             (lit "alice@example.com") 2000 (lit "bob") (lit "hi")).
    intros req. reflexivity.
  - apply (benign_transport_never_raises (lnurlp_server discovery_response) 10
             (lit "alice@example.com") 2000 (lit "bob") (lit "hi")).
    intros req. unfold lnurlp_benign, lnurlp_server.
    destruct (req_params req); reflexivity.
Defined.

(** * Further properties of the two methods *)

(** ** Blank bodies *)

Lemma lstrip_nil s : lstrip s = [] ↔ Forall (λ c, isspace c = true) s.
Proof.
  induction s as [|c s IH]; cbn [lstrip]; [done|].
  destruct (isspace c) eqn:Hc.
  - rewrite IH. split; [by constructor | by inversion 1].
  - split; [done | inversion 1; congruence].
Qed.

Lemma lstrip_head s :
  match lstrip s with
  | [] => True
  | c :: _ => isspace c = false
  end.
Proof.
  induction s as [|c s IH]; cbn [lstrip]; [done|].
  by destruct (isspace c) eqn:Hc.
Qed.

Lemma rev_nil_iff (s : str) : rev s = [] ↔ s = [].
Proof.
  split; [|by intros ->].
  intros Hrev. apply (f_equal (@rev N)) in Hrev.
  by rewrite rev_involutive in Hrev.
Qed.

Lemma strip_nil s : strip s = [] ↔ Forall (λ c, isspace c = true) s.
Proof.
  unfold strip, rstrip.
  rewrite rev_nil_iff, (lstrip_nil (rev _)), <- (lstrip_nil s).
  split.
  - intros Hall%Forall_rev. rewrite rev_involutive in Hall.
    pose proof (lstrip_head s) as Hhead.
    destruct (lstrip s) as [|c rest]; [done|].
    inversion Hall; congruence.
  - by intros ->.
Qed.

(** X1: [not text or not text.strip()] holds exactly when every character
    of the text is whitespace (the empty text included). *)
Theorem blank_iff_whitespace body :
  blank body = true ↔ Forall (λ c, isspace c = true) body.
Proof.
  unfold blank. cbn [truthy]. unfold str_eqb.
  rewrite !negb_involutive, orb_true_iff, !bool_decide_eq_true, strip_nil.
  split; [|by right]. by intros [->|?].
Qed.

(** ** Outcomes decided by one reply *)

Lemma and_then_none {A B} (k : A → result (option B)) :
  and_then (Ok None) k = Ok None.
Proof. done. Qed.

Section OneReply.

Variable requester : request → result response.
Variable t : Z.

(** What a keysend run and an lnurlp run make of the replies, by the place
    of the request in the run. *)
Lemma keysend_run_cases addr log :
  resolve_keysend requester t addr log = (Ok None, log)
  ∨ ∃ u dmn,
      addr = u ++ at_sign :: dmn ∧ (at_sign ∉ u)
      ∧ resolve_keysend requester t addr log
        = (and_then (decoded (requester (GET t (keysend_url u dmn) None)))
             keysend_of,
           log ++ [GET t (keysend_url u dmn) None]).
Proof.
  destruct (decide (at_sign ∈ addr)) as [Hin|Hout].
  - right. destruct (first_at _ Hin) as (u & dmn & -> & Hu).
    exists u, dmn. split_and!; [done | done |]. by apply resolve_keysend_at.
  - left. by apply resolve_keysend_no_at.
Qed.

Lemma lnurlp_run_cases addr amount name msg log :
  resolve_lnurlp requester t addr amount name msg log = (Ok None, log)
  ∨ ∃ u dmn,
      addr = u ++ at_sign :: dmn ∧ (at_sign ∉ u)
      ∧ let req := GET t (lnurlp_url u dmn) None in
        let first := and_then (decoded (requester req))
                       (callback_of amount name msg) in
        (first = Ok None
         ∧ resolve_lnurlp requester t addr amount name msg log
           = (Ok None, log ++ [req]))
        ∨ (∃ e, first = Raise e
                ∧ resolve_lnurlp requester t addr amount name msg log
                  = (Raise e, log ++ [req]))
        ∨ (∃ target query,
             first = Ok (Some (target, query))
             ∧ resolve_lnurlp requester t addr amount name msg log
               = (and_then (decoded (requester (GET t target (Some query))))
                    invoice_of,
                  log ++ [req; GET t target (Some query)])).
Proof.
  destruct (decide (at_sign ∈ addr)) as [Hin|Hout].
  2: { left. by apply resolve_lnurlp_no_at. }
  right. destruct (first_at _ Hin) as (u & dmn & -> & Hu).
  exists u, dmn. split_and!; [done | done |]. cbn zeta.
  rewrite resolve_lnurlp_at by done. cbn zeta.
  destruct (and_then _ (callback_of amount name msg)) as [[[target query]|]|e].
  - right. right. by exists target, query.
  - by left.
  - right. left. by exists e.
Qed.

End OneReply.

Lemma keysend_of_other v : (∀ d, v ≠ PDict d) → keysend_of v = Raise AttributeError.
Proof. intros Hv. destruct v; try done. by destruct (Hv d). Qed.

Lemma callback_of_other amount name msg v :
  (∀ d, v ≠ PDict d) → callback_of amount name msg v = Raise AttributeError.
Proof. intros Hv. destruct v; try done. by destruct (Hv d). Qed.

Lemma invoice_of_other v : (∀ d, v ≠ PDict d) → invoice_of v = Raise AttributeError.
Proof. intros Hv. destruct v; try done. by destruct (Hv d). Qed.

(** A reply at which a run stops: a failure that is caught, an exception
    that is not, or a decoded body that is not an object. The outcome of the
    run is then decided by that reply, whichever request of the run it
    answers. *)
Lemma keysend_stops_at requester t addr req x :
  decoded (requester req) = x →
  x = Ok None ∨ (∃ e, x = Raise e) ∨ (∃ v, x = Ok (Some v) ∧ ∀ d, v ≠ PDict d) →
  req ∈ snd (resolve_keysend requester t addr []) →
  fst (resolve_keysend requester t addr [])
  = match x with
    | Ok None => Ok None
    | Raise e => Raise e
    | Ok (Some _) => Raise AttributeError
    end.
Proof.
  intros Hx Hstop.
  destruct (keysend_run_cases requester t addr [])
    as [Hrun|(u & dmn & _ & _ & Hrun)]; rewrite Hrun; cbn [fst snd app].
  { by intros ?%elem_of_nil. }
  intros ->%list_elem_of_singleton. rewrite Hx.
  destruct Hstop as [->|[[e ->]|(v & -> & Hv)]]; cbn [and_then]; try done.
  by apply keysend_of_other.
Qed.

Lemma lnurlp_stops_at requester t addr amount name msg req x :
  decoded (requester req) = x →
  x = Ok None ∨ (∃ e, x = Raise e) ∨ (∃ v, x = Ok (Some v) ∧ ∀ d, v ≠ PDict d) →
  req ∈ snd (resolve_lnurlp requester t addr amount name msg []) →
  fst (resolve_lnurlp requester t addr amount name msg [])
  = match x with
    | Ok None => Ok None
    | Raise e => Raise e
    | Ok (Some _) => Raise AttributeError
    end.
Proof.
  intros Hx Hstop.
  assert (and_then x (callback_of amount name msg)
          = match x with
            | Ok None => Ok None
            | Raise e => Raise e
            | Ok (Some _) => Raise AttributeError
            end) as Hfirst_stop.
  { destruct Hstop as [->|[[e ->]|(v & -> & Hv)]]; cbn [and_then]; try done.
    by apply callback_of_other. }
  assert (and_then x invoice_of
          = match x with
            | Ok None => Ok None
            | Raise e => Raise e
            | Ok (Some _) => Raise AttributeError
            end) as Hsecond_stop.
  { destruct Hstop as [->|[[e ->]|(v & -> & Hv)]]; cbn [and_then]; try done.
    by apply invoice_of_other. }
  destruct (lnurlp_run_cases requester t addr amount name msg [])
    as [Hrun|(u & dmn & _ & _ & Hcases)].
  { rewrite Hrun. by intros ?%elem_of_nil. }
  cbn zeta in Hcases.
  destruct Hcases as [[Hfirst Hrun]|[(e & Hfirst & Hrun)
                                    |(target & query & Hfirst & Hrun)]];
    rewrite Hrun; cbn [fst snd app].
  - intros ->%list_elem_of_singleton. rewrite Hx, Hfirst_stop in Hfirst.
    destruct x as [[v|]|e]; congruence.
  - intros ->%list_elem_of_singleton. rewrite Hx, Hfirst_stop in Hfirst.
    destruct x as [[v|]|e']; congruence.
  - intros [->|[->|[]%elem_of_nil]%elem_of_cons]%elem_of_cons.
    + rewrite Hx, Hfirst_stop in Hfirst. destruct x as [[v|]|e]; congruence.
    + by rewrite Hx.
Qed.

(** X2: a request of the run answered by a transport failure, a blank body
    or a body that does not decode makes the run return [None], whatever the
    other replies are. *)
Theorem failed_request_unresolved requester t addr amount name msg req :
  decoded (requester req) = Ok None →
  (req ∈ snd (resolve_keysend requester t addr []) →
   fst (resolve_keysend requester t addr []) = Ok None)
  ∧ (req ∈ snd (resolve_lnurlp requester t addr amount name msg []) →
     fst (resolve_lnurlp requester t addr amount name msg []) = Ok None).
Proof.
  intros Hfail. split; intros Hreq.
  - apply (keysend_stops_at _ _ _ _ _ Hfail); [by left | done].
  - apply (lnurlp_stops_at _ _ _ _ _ _ _ _ Hfail); [by left | done].
Qed.

Lemma failed_request_unresolved_witness :
  let req := GET 10 (keysend_url (lit "alice") (lit "example.com")) None in
  let req' := GET 10 (lnurlp_url (lit "alice") (lit "example.com")) None in
  (req ∈ snd (resolve_keysend dead_server 10 (lit "alice@example.com") []) →
   fst (resolve_keysend dead_server 10 (lit "alice@example.com") []) = Ok None)
  ∧ (req' ∈ snd (resolve_lnurlp dead_server 10 (lit "alice@example.com") 2000
                   (lit "bob") (lit "hi") []) →
     fst (resolve_lnurlp dead_server 10 (lit "alice@example.com") 2000
            (lit "bob") (lit "hi") []) = Ok None).
Proof.
  split.
  - apply (failed_request_unresolved dead_server 10 (lit "alice@example.com")
             2000 (lit "bob") (lit "hi")). reflexivity.
  - apply (failed_request_unresolved dead_server 10 (lit "alice@example.com")
             2000 (lit "bob") (lit "hi")). reflexivity.
Defined.

(** X3: an exception of the transport that is not a [RequestException],
    and an exception of [json()] that is not a decode error, are not caught:
    whichever request of the run meets one, the run raises it. *)
Theorem uncaught_exception_propagates requester t addr amount name msg req e :
  decoded (requester req) = Raise e →
  (req ∈ snd (resolve_keysend requester t addr []) →
   fst (resolve_keysend requester t addr []) = Raise e)
  ∧ (req ∈ snd (resolve_lnurlp requester t addr amount name msg []) →
     fst (resolve_lnurlp requester t addr amount name msg []) = Raise e).
Proof.
  intros Hraise. split; intros Hreq.
  - apply (keysend_stops_at _ _ _ _ _ Hraise); [right; left; by eexists | done].
  - apply (lnurlp_stops_at _ _ _ _ _ _ _ _ Hraise);
      [right; left; by eexists | done].
Qed.

Lemma uncaught_exception_propagates_witness :
  let req := GET 10 (keysend_url (lit "alice") (lit "example.com")) None in
  let req' := GET 10 (lnurlp_url (lit "alice") (lit "example.com")) None in
  (req ∈ snd (resolve_keysend broken_server 10 (lit "alice@example.com") []) →
   fst (resolve_keysend broken_server 10 (lit "alice@example.com") [])
   = Raise OtherException)
  ∧ (req' ∈ snd (resolve_lnurlp broken_server 10 (lit "alice@example.com")
                   2000 (lit "bob") (lit "hi") []) →
     fst (resolve_lnurlp broken_server 10 (lit "alice@example.com") 2000
            (lit "bob") (lit "hi") []) = Raise OtherException).
Proof.
  split.
  - apply (uncaught_exception_propagates broken_server 10
             (lit "alice@example.com") 2000 (lit "bob") (lit "hi")).
    reflexivity.
  - apply (uncaught_exception_propagates broken_server 10
             (lit "alice@example.com") 2000 (lit "bob") (lit "hi")).
    reflexivity.
Defined.

(** X4: a body that decodes to something other than a JSON object (a list,
    a string, a number, [null]) makes the run raise [AttributeError],
    whichever request of the run it answers. *)
Theorem non_object_body_raises requester t addr amount name msg req v :
  decoded (requester req) = Ok (Some v) →
  (∀ d, v ≠ PDict d) →
  (req ∈ snd (resolve_keysend requester t addr []) →
   fst (resolve_keysend requester t addr []) = Raise AttributeError)
  ∧ (req ∈ snd (resolve_lnurlp requester t addr amount name msg []) →
     fst (resolve_lnurlp requester t addr amount name msg [])
     = Raise AttributeError).
Proof.
  intros Hbody Hv. split; intros Hreq.
  - apply (keysend_stops_at _ _ _ _ _ Hbody); [right; right; by eexists | done].
  - apply (lnurlp_stops_at _ _ _ _ _ _ _ _ Hbody);
      [right; right; by eexists | done].
Qed.

Lemma non_object_body_raises_witness :
  let req := GET 10 (keysend_url (lit "alice") (lit "example.com")) None in
  let req' := GET 10 (lnurlp_url (lit "alice") (lit "example.com")) None in
  (req ∈ snd (resolve_keysend list_server 10 (lit "alice@example.com") []) →
   fst (resolve_keysend list_server 10 (lit "alice@example.com") [])
   = Raise AttributeError)
  ∧ (req' ∈ snd (resolve_lnurlp list_server 10 (lit "alice@example.com")
                   2000 (lit "bob") (lit "hi") []) →
     fst (resolve_lnurlp list_server 10 (lit "alice@example.com") 2000
            (lit "bob") (lit "hi") []) = Raise AttributeError).
Proof.
  split.
  - apply (non_object_body_raises list_server 10 (lit "alice@example.com")
             2000 (lit "bob") (lit "hi") _ (PList [])); [reflexivity | done].
  - apply (non_object_body_raises list_server 10 (lit "alice@example.com")
             2000 (lit "bob") (lit "hi") _ (PList [])); [reflexivity | done].
Defined.

(** ** When keysend resolution raises *)

(** X5: keysend resolution raises in two cases only: its request met an
    exception that is not caught (of the transport, or of [json()]), which it
    raises unchanged; or the body decoded to something that is not an object,
    and it raises [AttributeError]. *)
Theorem keysend_raises_iff requester t addr e :
  fst (resolve_keysend requester t addr []) = Raise e
  ↔ ∃ req,
      req ∈ snd (resolve_keysend requester t addr [])
      ∧ (decoded (requester req) = Raise e
         ∨ ∃ v, decoded (requester req) = Ok (Some v)
                ∧ (∀ d, v ≠ PDict d) ∧ e = AttributeError).
Proof.
  split.
  - destruct (keysend_run_cases requester t addr [])
      as [Hrun|(u & dmn & _ & _ & Hrun)]; rewrite Hrun; cbn [fst snd app];
      [done|].
    intros Hraise. eexists. split; [apply list_elem_of_here|].
    destruct (decoded _) as [[v|]|e']; cbn [and_then] in Hraise;
      [|done|left; congruence].
    right. exists v. split; [done|].
    destruct v; cbn [keysend_of] in Hraise;
      try (split; [done | congruence]).
    by destruct (_ || _).
  - intros (req & Hreq & [Hraise|(v & Hbody & Hv & ->)]).
    + apply (keysend_stops_at _ _ _ _ _ Hraise); [right; left; by eexists | done].
    + apply (keysend_stops_at _ _ _ _ _ Hbody); [right; right; by eexists | done].
Qed.

(** ** Checks that come before the amount *)

(** X6: a discovery object whose [tag] is not "payRequest", or whose
    [callback] is absent or falsy, ends the run with [None] after the
    discovery request; the other fields are not looked at, so ill-typed
    bounds raise nothing here. *)
Theorem wrong_tag_or_no_callback_unresolved requester t username domain r d
    amount name msg log :
  at_sign ∉ username →
  requester (GET t (lnurlp_url username domain) None) = Ok r →
  blank (text r) = false →
  json r = Ok (PDict d) →
  d !! lit "tag" ≠ Some (PStr (lit "payRequest"))
  ∨ truthy (default PNone (d !! lit "callback")) = false →
  resolve_lnurlp requester t (username ++ at_sign :: domain) amount name msg log
  = (Ok None, log ++ [GET t (lnurlp_url username domain) None]).
Proof.
  intros Hu Hreq Hblank Hjson Hbad. rewrite resolve_lnurlp_at by done.
  cbn zeta. rewrite Hreq. cbn [decoded]. rewrite Hblank, Hjson.
  cbn [and_then callback_of].
  destruct (ne_str (default PNone (d !! lit "tag")) (lit "payRequest")) eqn:Htag;
    [done|].
  apply ne_str_default_false in Htag.
  destruct Hbad as [Hbad|Hbad]; [done|]. by rewrite Hbad.
Qed.

Lemma wrong_tag_or_no_callback_unresolved_witness :
  resolve_lnurlp (lnurlp_server withdraw_response) 10
    (lit "alice" ++ at_sign :: lit "example.com") 2000 (lit "bob") (lit "hi") []
  = (Ok None,
     [] ++ [GET 10 (lnurlp_url (lit "alice") (lit "example.com")) None]).
Proof.
  apply (wrong_tag_or_no_callback_unresolved _ _ _ _ withdraw_response
           withdraw_fields);
    [by_evaluation | reflexivity | reflexivity | reflexivity |].
  left. vm_compute. intros [=].
Defined.

(** ** The requests of a run *)

(** X7: a keysend run adds at most one request to the calls made so far, an
    lnurlp run at most two. Every request is a GET with the provider's
    timeout; the first has a string URL and no query parameters, the second
    has query parameters. Earlier calls are kept as they were. *)
Theorem requests_shape requester t addr amount name msg log :
  (∃ new, snd (resolve_keysend requester t addr log) = log ++ new
          ∧ (new = [] ∨ ∃ u, new = [GET t (PStr u) None]))
  ∧ (∃ new,
       snd (resolve_lnurlp requester t addr amount name msg log) = log ++ new
       ∧ (new = []
          ∨ (∃ u, new = [GET t (PStr u) None])
          ∨ ∃ u target query,
              new = [GET t (PStr u) None; GET t target (Some query)])).
Proof.
  split.
  - destruct (keysend_run_cases requester t addr log)
      as [Hrun|(u & dmn & _ & _ & Hrun)]; rewrite Hrun; cbn [snd].
    + exists []. split; [by rewrite app_nil_r | by left].
    + eexists. split; [done|]. right. by eexists.
  - destruct (lnurlp_run_cases requester t addr amount name msg log)
      as [Hrun|(u & dmn & _ & _ & Hcases)].
    { rewrite Hrun. exists []. split; [by rewrite app_nil_r | by left]. }
    cbn zeta in Hcases.
    destruct Hcases as [[_ Hrun]|[(e & _ & Hrun)
                                 |(target & query & _ & Hrun)]];
      rewrite Hrun; cbn [snd]; eexists; (split; [done|]).
    + right. left. by eexists.
    + right. left. by eexists.
    + right. right. by eexists _, _, _.
Qed.

(** ** What a populated result tells *)

Lemma decoded_some reply v :
  decoded reply = Ok (Some v) →
  ∃ r, reply = Ok r ∧ blank (text r) = false ∧ json r = Ok v.
Proof.
  destruct reply as [r|e]; cbn [decoded].
  2: { by destruct (is_request_exception e). }
  destruct (blank (text r)) eqn:Hblank; [done|].
  destruct (json r) as [v'|e] eqn:Hjson.
  - intros [= ->]. by exists r.
  - by destruct (is_decode_error e).
Qed.

Lemma and_then_some {A B} (x : result (option A)) (k : A → result (option B)) b :
  and_then x k = Ok (Some b) → ∃ a, x = Ok (Some a) ∧ k a = Ok (Some b).
Proof. destruct x as [[a|]|e]; cbn [and_then]; [by exists a | done | done]. Qed.

Lemma lookup_truthy (d : gmap str pyval) key v :
  default PNone (d !! key) = v → truthy v = true → d !! key = Some v.
Proof. destruct (d !! key); cbn; [congruence | by intros <-]. Qed.

Lemma keysend_of_some v k :
  keysend_of v = Ok (Some k) →
  ∃ d, v = PDict d
       ∧ d !! lit "status" = Some (PStr (lit "OK"))
       ∧ d !! lit "tag" = Some (PStr (lit "keysend"))
       ∧ pubkey k = default PNone (d !! lit "pubkey")
       ∧ custom_data k = default (PList []) (d !! lit "customData").
Proof.
  destruct v as [| | | | | |d]; try done. cbn [keysend_of].
  destruct (ne_str (default PNone (d !! lit "status")) _) eqn:Hstatus; [done|].
  destruct (ne_str (default PNone (d !! lit "tag")) _) eqn:Htag; [done|].
  cbn [orb]. intros [= <-]. exists d.
  apply ne_str_default_false in Hstatus, Htag. by split_and!.
Qed.

Lemma callback_of_some amount name msg v target query :
  callback_of amount name msg v = Ok (Some (target, query)) →
  ∃ d, v = PDict d
       ∧ d !! lit "tag" = Some (PStr (lit "payRequest"))
       ∧ d !! lit "callback" = Some target ∧ truthy target = true
       ∧ out_of_range amount (min_sendable_of d) (max_sendable_of d) = Ok false
       ∧ callback_params amount name msg (PDict d) = Ok query.
Proof.
  destruct v as [| | | | | |d]; try done. cbn [callback_of].
  destruct (ne_str (default PNone (d !! lit "tag")) _) eqn:Htag; [done|].
  destruct (truthy (default PNone (d !! lit "callback"))) eqn:Htruthy;
    cbn [negb]; [|done].
  destruct (out_of_range _ _ _) as [[]|] eqn:Hrange; [done| |done].
  destruct (callback_params _ _ _ _) as [query'|] eqn:Hquery; [|done].
  intros [= <- <-]. exists d.
  apply ne_str_default_false in Htag.
  split_and!; try done. by apply (lookup_truthy _ _ _ eq_refl).
Qed.

Lemma invoice_of_some v k :
  invoice_of v = Ok (Some k) →
  ∃ d, v = PDict d ∧ d !! lit "pr" = Some (invoice k)
       ∧ truthy (invoice k) = true.
Proof.
  destruct v as [| | | | | |d]; try done. cbn [invoice_of].
  destruct (truthy (default PNone (d !! lit "pr"))) eqn:Htruthy;
    cbn [negb]; [|done].
  intros [= <-]. exists d. cbn [invoice].
  split_and!; [done | by apply (lookup_truthy _ _ _ eq_refl) | done].
Qed.

(** X8: keysend resolution returns a populated result only when the address
    has an '@', the transport returned a non-blank body that decodes to an
    object with [status] "OK" and [tag] "keysend"; the result carries that
    object's [pubkey] and [customData]. *)
Theorem keysend_result_sound requester t addr k :
  fst (resolve_keysend requester t addr []) = Ok (Some k) →
  ∃ username domain r d,
    addr = username ++ at_sign :: domain ∧ (at_sign ∉ username)
    ∧ requester (GET t (keysend_url username domain) None) = Ok r
    ∧ blank (text r) = false ∧ json r = Ok (PDict d)
    ∧ d !! lit "status" = Some (PStr (lit "OK"))
    ∧ d !! lit "tag" = Some (PStr (lit "keysend"))
    ∧ pubkey k = default PNone (d !! lit "pubkey")
    ∧ custom_data k = default (PList []) (d !! lit "customData").
Proof.
  destruct (keysend_run_cases requester t addr [])
    as [Hrun|(u & dmn & Haddr & Hu & Hrun)]; rewrite Hrun; cbn [fst];
    [done|].
  intros (v & (r & Hreply & Hblank & Hjson)%decoded_some
            & (d & -> & Hfields)%keysend_of_some)%and_then_some.
  by exists u, dmn, r, d.
Qed.

Lemma keysend_result_sound_witness :
  ∃ username domain r d,
    lit "alice@example.com" = username ++ at_sign :: domain
    ∧ (at_sign ∉ username)
    ∧ keysend_server (GET 10 (keysend_url username domain) None) = Ok r
    ∧ blank (text r) = false ∧ json r = Ok (PDict d)
    ∧ d !! lit "status" = Some (PStr (lit "OK"))
    ∧ d !! lit "tag" = Some (PStr (lit "keysend"))
    ∧ pubkey {| pubkey := jstr "02ab";
                custom_data :=
                  PList [obj [("key", jstr "k"); ("value", jstr "v")]%string] |}
      = default PNone (d !! lit "pubkey")
    ∧ custom_data {| pubkey := jstr "02ab";
                     custom_data :=
                       PList [obj [("key", jstr "k");
                                   ("value", jstr "v")]%string] |}
      = default (PList []) (d !! lit "customData").
Proof.
  apply (keysend_result_sound keysend_server 10 (lit "alice@example.com")).
  vm_compute. reflexivity.
Defined.

(** X9: lnurlp resolution returns an invoice only after two requests: the
    discovery request, answered by an object with [tag] "payRequest", a
    truthy [callback] and bounds that admit the amount, and a request to
    that [callback] carrying [amount]; the invoice is the truthy [pr] field
    of the object the callback answered. *)
Theorem invoice_comes_from_callback requester t addr amount name msg k :
  fst (resolve_lnurlp requester t addr amount name msg []) = Ok (Some k) →
  ∃ username domain r d target query r' d',
    addr = username ++ at_sign :: domain ∧ (at_sign ∉ username)
    ∧ requester (GET t (lnurlp_url username domain) None) = Ok r
    ∧ blank (text r) = false ∧ json r = Ok (PDict d)
    ∧ d !! lit "tag" = Some (PStr (lit "payRequest"))
    ∧ d !! lit "callback" = Some target ∧ truthy target = true
    ∧ out_of_range amount (min_sendable_of d) (max_sendable_of d) = Ok false
    ∧ snd (resolve_lnurlp requester t addr amount name msg [])
      = [GET t (lnurlp_url username domain) None; GET t target (Some query)]
    ∧ requester (GET t target (Some query)) = Ok r'
    ∧ blank (text r') = false ∧ json r' = Ok (PDict d')
    ∧ d' !! lit "pr" = Some (invoice k) ∧ truthy (invoice k) = true.
Proof.
  destruct (lnurlp_run_cases requester t addr amount name msg [])
    as [Hrun|(u & dmn & Haddr & Hu & Hcases)].
  { by rewrite Hrun. }
  cbn zeta in Hcases.
  destruct Hcases as [[_ Hrun]|[(e & _ & Hrun)
                               |(target & query & Hfirst & Hrun)]];
    rewrite Hrun; cbn [fst snd app]; [done | done |].
  apply and_then_some in Hfirst
    as (v & (r & Hreply & Hblank & Hjson)%decoded_some
          & (d & -> & Htag & Hcb & Htruthy & Hrange & _)%callback_of_some).
  intros (v' & (r' & Hreply' & Hblank' & Hjson')%decoded_some
             & (d' & -> & Hpr & Hinvoice)%invoice_of_some)%and_then_some.
  exists u, dmn, r, d, target, query, r', d'. by split_and!.
Qed.

Lemma invoice_comes_from_callback_witness :
  ∃ username domain r d target query r' d',
    lit "alice@example.com" = username ++ at_sign :: domain
    ∧ (at_sign ∉ username)
    ∧ lnurlp_server discovery_response
        (GET 10 (lnurlp_url username domain) None) = Ok r
    ∧ blank (text r) = false ∧ json r = Ok (PDict d)
    ∧ d !! lit "tag" = Some (PStr (lit "payRequest"))
    ∧ d !! lit "callback" = Some target ∧ truthy target = true
    ∧ out_of_range 2000 (min_sendable_of d) (max_sendable_of d) = Ok false
    ∧ snd (resolve_lnurlp (lnurlp_server discovery_response) 10
             (lit "alice@example.com") 2000 (lit "bob") (lit "hello world") [])
      = [GET 10 (lnurlp_url username domain) None; GET 10 target (Some query)]
    ∧ lnurlp_server discovery_response (GET 10 target (Some query)) = Ok r'
    ∧ blank (text r') = false ∧ json r' = Ok (PDict d')
    ∧ d' !! lit "pr" = Some (invoice {| invoice := jstr "lnbc1" |})
    ∧ truthy (invoice {| invoice := jstr "lnbc1" |}) = true.
Proof.
  apply (invoice_comes_from_callback (lnurlp_server discovery_response) 10
           (lit "alice@example.com") 2000 (lit "bob") (lit "hello world")).
  vm_compute. reflexivity.
Defined.

(** X10: once the callback request has been made, a non-blank reply that
    decodes to an object decides the outcome by its [pr] field alone: the
    invoice is that field when it is truthy, and the result is [None] when
    it is absent or falsy. *)
Theorem lnurlp_outcome_from_callback requester t addr amount name msg
    req1 req2 r' d' :
  snd (resolve_lnurlp requester t addr amount name msg []) = [req1; req2] →
  requester req2 = Ok r' →
  blank (text r') = false →
  json r' = Ok (PDict d') →
  fst (resolve_lnurlp requester t addr amount name msg [])
  = if truthy (default PNone (d' !! lit "pr"))
    then Ok (Some {| invoice := default PNone (d' !! lit "pr") |})
    else Ok None.
Proof.
  destruct (lnurlp_run_cases requester t addr amount name msg [])
    as [Hrun|(u & dmn & _ & _ & Hcases)].
  { by rewrite Hrun. }
  cbn zeta in Hcases.
  destruct Hcases as [[_ Hrun]|[(e & _ & Hrun)
                               |(target & query & _ & Hrun)]];
    rewrite Hrun; cbn [fst snd app]; [done | done |].
  intros [= _ <-] Hreply Hblank Hjson.
  rewrite Hreply. cbn [decoded]. rewrite Hblank, Hjson.
  cbn [and_then invoice_of]. by destruct (truthy _).
Qed.

Lemma lnurlp_outcome_from_callback_witness :
  fst (resolve_lnurlp (lnurlp_server discovery_response) 10
         (lit "alice@example.com") 2000 (lit "") (lit "") [])
  = if truthy (default PNone (fields [("pr", jstr "lnbc1")]%string !! lit "pr"))
    then Ok (Some {| invoice :=
                       default PNone
                         (fields [("pr", jstr "lnbc1")]%string !! lit "pr") |})
    else Ok None.
Proof.
  apply (lnurlp_outcome_from_callback (lnurlp_server discovery_response) 10
           (lit "alice@example.com") 2000 (lit "") (lit "")
           (GET 10 (lnurlp_url (lit "alice") (lit "example.com")) None)
           (GET 10 (jstr "https://x/cb") (Some {[ lit "amount" := PInt 2000 ]}))
           invoice_response);
    [vm_compute; reflexivity | reflexivity | reflexivity | reflexivity].
Defined.

(** ** What the callback request carries *)

Lemma slice_to_positive msg k :
  msg ≠ [] → 0 < k →
  slice_to msg k ≠ [] ∧ slice_to msg k `prefix_of` msg.
Proof.
  intros Hmsg Hk. unfold slice_to.
  destruct (Z.ltb_spec k 0); [lia|]. split; [|apply prefix_take].
  destruct msg as [|c rest]; [done|].
  destruct (Z.to_nat k) eqn:Hn; [lia | done].
Qed.

Lemma callback_params_inv amount name msg data query :
  callback_params amount name msg data = Ok query →
  ∃ (with_name : bool) (comment : option str),
    query = built_query amount name with_name comment
    ∧ (with_name = true → name ≠ [])
    ∧ (∀ c, comment = Some c → msg ≠ [] ∧ c ≠ [] ∧ c `prefix_of` msg).
Proof.
  destruct data as [| | | | | |d]; try done.
  destruct (payer_data_of d) as [| | | | | |pd] eqn:Hpd.
  1-6: unfold callback_params; cbn [py_get]; fold (payer_data_of d);
       rewrite Hpd; by destruct (name_accepted _ _) as [[]|].
  rewrite (callback_params_object _ _ _ _ _ Hpd). cbn zeta.
  set (with_name := truthy (PStr name) && bool_decide (is_Some (pd !! lit "name"))).
  assert (with_name = true → name ≠ []) as Hname.
  { subst with_name. by intros [?%truthy_str _]%andb_true_iff. }
  clearbody with_name.
  unfold comment_accepted.
  destruct (truthy (PStr msg)) eqn:Hmsg.
  2: { intros [= <-]. exists with_name, None. by split_and!. }
  apply truthy_str in Hmsg.
  destruct (comment_allowed_of pd) as [|[]|k|f| | |];
    cbn [gt_zero py_slice_to]; try done.
  - intros [= <-]. exists with_name, (Some (slice_to msg (Z.b2z true))).
    split_and!; [done | done |]. intros c [= <-].
    split; [done|]. by apply slice_to_positive.
  - intros [= <-]. exists with_name, None. by split_and!.
  - destruct (Z.ltb_spec 0 k).
    + intros [= <-]. exists with_name, (Some (slice_to msg k)).
      split_and!; [done | done |]. intros c [= <-].
      split; [done|]. by apply slice_to_positive.
    + intros [= <-]. exists with_name, None. by split_and!.
  - destruct (int_lt_float 0 f); [done|].
    intros [= <-]. exists with_name, None. by split_and!.
Qed.

Section Query.

Variable amount : Z.
Variable name : str.
Variable with_name : bool.
Variable comment : option str.


Lemma query_amount :
  built_query amount name with_name comment !! lit "amount" = Some (PInt amount).
Proof.
  unfold built_query. cbn zeta.
  destruct comment; [rewrite lookup_insert_ne by apply key_comment_amount|];
    (destruct with_name; [rewrite lookup_insert_ne by apply key_name_amount|]);
    apply lookup_singleton_eq.
Qed.

Lemma query_name :
  built_query amount name with_name comment !! lit "name" = if with_name then Some (PStr name) else None.
Proof.
  unfold built_query. cbn zeta.
  destruct comment; [rewrite lookup_insert_ne by apply key_comment_name|];
    (destruct with_name;
       [apply lookup_insert_eq
       | apply lookup_singleton_ne, not_eq_sym, key_name_amount]).
Qed.

Lemma query_comment :
  built_query amount name with_name comment !! lit "comment" = PStr <$> comment.
Proof.
  unfold built_query. cbn zeta.
  destruct comment; [apply lookup_insert_eq|].
  destruct with_name;
    [rewrite lookup_insert_ne by apply not_eq_sym, key_comment_name|];
    apply lookup_singleton_ne, not_eq_sym, key_comment_amount.
Qed.

Lemma query_keys key :
  is_Some (built_query amount name with_name comment !! key) →
  key = lit "amount" ∨ key = lit "name" ∨ key = lit "comment".
Proof.
  destruct (decide (key = lit "amount")) as [|Hamount]; [by left|].
  destruct (decide (key = lit "name")) as [|Hnm]; [by right; left|].
  destruct (decide (key = lit "comment")) as [|Hcomment]; [by right; right|].
  intros [v Hv]. exfalso. revert Hv. unfold built_query. cbn zeta.
  destruct comment; [rewrite lookup_insert_ne by by apply not_eq_sym|];
    (destruct with_name; [rewrite lookup_insert_ne by by apply not_eq_sym|]);
    by rewrite lookup_singleton_ne by by apply not_eq_sym.
Qed.

End Query.


(** X11: whatever the discovery object declares, a callback request always
    carries [amount] as given, and no parameter other than [amount], [name]
    and [comment]; a [name] it carries is the sender name, which is then not
    empty, and a [comment] it carries is a non-empty prefix of the message. *)
Theorem callback_query_shape requester t addr amount name msg req query :
  req ∈ snd (resolve_lnurlp requester t addr amount name msg []) →
  req_params req = Some query →
  query !! lit "amount" = Some (PInt amount)
  ∧ (∀ key, is_Some (query !! key) →
            key = lit "amount" ∨ key = lit "name" ∨ key = lit "comment")
  ∧ (∀ v, query !! lit "name" = Some v → v = PStr name ∧ name ≠ [])
  ∧ (∀ v, query !! lit "comment" = Some v →
          ∃ c, v = PStr c ∧ c ≠ [] ∧ c `prefix_of` msg).
Proof.
  intros Hreq Hquery.
  assert (∃ data, callback_params amount name msg data = Ok query)
    as [data Hbuilt].
  { destruct (lnurlp_run_cases requester t addr amount name msg [])
      as [Hrun|(u & dmn & _ & _ & Hcases)].
    { rewrite Hrun in Hreq. by apply elem_of_nil in Hreq. }
    cbn zeta in Hcases.
    destruct Hcases as [[_ Hrun]|[(e & _ & Hrun)
                                 |(target & query' & Hfirst & Hrun)]];
      rewrite Hrun in Hreq; cbn [snd app] in Hreq.
    - apply list_elem_of_singleton in Hreq as ->. done.
    - apply list_elem_of_singleton in Hreq as ->. done.
    - apply elem_of_cons in Hreq as [->|Hreq]; [done|].
      apply list_elem_of_singleton in Hreq as ->.
      cbn [req_params GET] in Hquery. injection Hquery as ->.
      apply and_then_some in Hfirst
        as (v & _ & (d & -> & _ & _ & _ & _ & Hparams)%callback_of_some).
      by eexists. }
  destruct (callback_params_inv _ _ _ _ _ Hbuilt)
    as (with_name & comment & -> & Hname & Hcomment).
  rewrite (query_amount amount name with_name comment),
    (query_name amount name with_name comment),
    (query_comment amount name with_name comment).
  split_and!.
  - done.
  - apply query_keys.
  - intros v. destruct with_name; [|done]. intros [= <-]. by split; [|apply Hname].
  - intros v. destruct comment as [c|]; [|done]. intros [= <-].
    exists c. split; [done|]. by apply Hcomment.
Qed.

Lemma callback_query_shape_witness :
  let query : gmap str pyval :=
    <[ lit "comment" := jstr "hello" ]>
      (<[ lit "name" := jstr "bob" ]> {[ lit "amount" := PInt 2000 ]}) in
  query !! lit "amount" = Some (PInt 2000)
  ∧ (∀ key, is_Some (query !! key) →
            key = lit "amount" ∨ key = lit "name" ∨ key = lit "comment")
  ∧ (∀ v, query !! lit "name" = Some v → v = PStr (lit "bob") ∧ lit "bob" ≠ [])
  ∧ (∀ v, query !! lit "comment" = Some v →
          ∃ c, v = PStr c ∧ c ≠ [] ∧ c `prefix_of` lit "hello world").
Proof.
  intros query.
  apply (callback_query_shape (lnurlp_server named_response) 10
           (lit "alice@example.com") 2000 (lit "bob") (lit "hello world")
           (GET 10 (jstr "https://x/cb") (Some query))).
  - vm_compute. apply list_elem_of_further, list_elem_of_here.
  - reflexivity.
Defined.

(** X12: when the discovery object passes the checks and has no [payerData],
    the callback request carries [amount] and nothing else, whatever sender
    name and message were given. *)
Theorem no_payer_data_amount_only requester t username domain r d target
    amount name msg :
  at_sign ∉ username →
  requester (GET t (lnurlp_url username domain) None) = Ok r →
  blank (text r) = false →
  json r = Ok (PDict d) →
  d !! lit "tag" = Some (PStr (lit "payRequest")) →
  d !! lit "callback" = Some target → truthy target = true →
  out_of_range amount (min_sendable_of d) (max_sendable_of d) = Ok false →
  d !! lit "payerData" = None →
  snd (resolve_lnurlp requester t (username ++ at_sign :: domain)
         amount name msg [])
  = [GET t (lnurlp_url username domain) None;
     GET t target (Some {[ lit "amount" := PInt amount ]})].
Proof.
  intros Hu Hreq Hblank Hjson Htag Hcb Htruthy Hin Hnone.
  apply (accepted_amount_calls_back _ _ _ _ r d); try done.
  assert (payer_data_of d = PDict ∅) as Hpd.
  { unfold payer_data_of. by rewrite Hnone. }
  rewrite (callback_params_object _ _ _ _ _ Hpd). cbn zeta.
  unfold comment_allowed_of. rewrite !lookup_empty. cbn [default from_option id].
  rewrite comment_accepted_int, andb_false_r.
  rewrite bool_decide_eq_false_2, andb_false_r; [done|].
  by intros [? [=]].
Qed.

Lemma no_payer_data_amount_only_witness :
  snd (resolve_lnurlp (lnurlp_server bare_response) 10
         (lit "alice" ++ at_sign :: lit "example.com") 2000 (lit "bob")
         (lit "hello world") [])
  = [GET 10 (lnurlp_url (lit "alice") (lit "example.com")) None;
     GET 10 (jstr "https://x/cb") (Some {[ lit "amount" := PInt 2000 ]})].
Proof.
  apply (no_payer_data_amount_only _ _ _ _ bare_response bare_fields);
    [by_evaluation | reflexivity..].
Defined.

(** ** Default bounds *)

(** X13: a discovery object that declares neither bound admits exactly the
    amounts that are not negative: a negative amount ends the run with
    [None] after the discovery request. *)
Theorem default_bounds_admit_non_negative requester t username domain r d
    amount name msg :
  at_sign ∉ username →
  requester (GET t (lnurlp_url username domain) None) = Ok r →
  blank (text r) = false →
  json r = Ok (PDict d) →
  d !! lit "minSendable" = None →
  d !! lit "maxSendable" = None →
  out_of_range amount (min_sendable_of d) (max_sendable_of d)
  = Ok (bool_decide (amount < 0))
  ∧ (amount < 0 →
     resolve_lnurlp requester t (username ++ at_sign :: domain)
       amount name msg []
     = (Ok None, [GET t (lnurlp_url username domain) None])).
Proof.
  intros Hu Hreq Hblank Hjson Hmin Hmax.
  assert (out_of_range amount (min_sendable_of d) (max_sendable_of d)
          = Ok (bool_decide (amount < 0))) as Hcheck.
  { unfold min_sendable_of, max_sendable_of. rewrite Hmin, Hmax.
    cbn [default from_option id]. unfold out_of_range.
    cbn [int_lt int_gt int_gt_float].
    destruct (Z.ltb_spec amount 0);
      [by rewrite bool_decide_eq_true_2 | by rewrite bool_decide_eq_false_2; [|lia]]. }
  split; [done|]. intros Hneg.
  apply (rejected_amount_stops _ _ _ _ r d); try done.
  by rewrite Hcheck, bool_decide_eq_true_2.
Qed.

Lemma default_bounds_admit_non_negative_witness :
  out_of_range (-1) (min_sendable_of bare_fields) (max_sendable_of bare_fields)
  = Ok (bool_decide (-1 < 0))
  ∧ (-1 < 0 →
     resolve_lnurlp (lnurlp_server bare_response) 10
       (lit "alice" ++ at_sign :: lit "example.com") (-1) (lit "bob")
       (lit "hi") []
     = (Ok None, [GET 10 (lnurlp_url (lit "alice") (lit "example.com")) None])).
Proof.
  apply (default_bounds_admit_non_negative _ _ _ _ bare_response bare_fields);
    [by_evaluation | reflexivity..].
Defined.

(** ** The amount check on every amount *)

(** X14: with integer-valued bounds, the check of line 91 admits exactly the
    amounts from [minSendable] to [maxSendable], both included; with no
    upper bound, exactly those from [minSendable] upwards. *)
Theorem amount_admitted_iff amount vmin vmax lo hi :
  int_value vmin = Some lo →
  upper_bound vmax = Some hi →
  (out_of_range amount vmin vmax = Ok false ↔ lo ≤ amount ∧ within amount hi)
  ∧ (out_of_range amount vmin vmax = Ok true ↔ amount < lo ∨ above amount hi).
Proof.
  intros Hlo Hhi.
  destruct (Z.lt_ge_cases amount lo) as [Hbelow|Hge].
  { rewrite (out_of_range_below _ _ _ lo) by done.
    split; split; intros H; try discriminate; try done; [lia | by left]. }
  destruct hi as [h|].
  - destruct (Z.le_gt_cases amount h) as [Hin|Hout].
    + rewrite (out_of_range_in _ _ _ lo (Finite h)) by done. cbn [within above].
      split; split; intros H; try discriminate; try done. lia.
    + rewrite (out_of_range_above _ _ _ lo (Finite h)) by done.
      cbn [within above].
      split; split; intros H; try discriminate; try done; [lia | by right].
  - rewrite (out_of_range_in _ _ _ lo Unbounded) by done. cbn [within above].
    split; split; intros H; try discriminate; try done.
    destruct H as [?|[]]. lia.
Qed.

Lemma amount_admitted_iff_witness :
  (out_of_range 2000 (PInt 1000) (PInt 500000) = Ok false
   ↔ 1000 ≤ 2000 ∧ within 2000 (Finite 500000))
  ∧ (out_of_range 2000 (PInt 1000) (PInt 500000) = Ok true
     ↔ 2000 < 1000 ∨ above 2000 (Finite 500000)).
Proof.
  apply (amount_admitted_iff 2000 (PInt 1000) (PInt 500000) 1000
           (Finite 500000)); reflexivity.
Defined.

(** X15: the two comparisons of line 91 are made in order on whatever the
    discovery object holds. An amount below an integer-valued [minSendable]
    is rejected without looking at [maxSendable]; a [minSendable] that is not
    a number raises [TypeError]; so does a [maxSendable] that is not a number
    once the amount is not below [minSendable]. The run then ends after the
    discovery request. *)
Theorem bounds_compared_in_order requester t username domain r d target
    amount name msg :
  at_sign ∉ username →
  requester (GET t (lnurlp_url username domain) None) = Ok r →
  blank (text r) = false →
  json r = Ok (PDict d) →
  d !! lit "tag" = Some (PStr (lit "payRequest")) →
  d !! lit "callback" = Some target → truthy target = true →
  let run :=
    resolve_lnurlp requester t (username ++ at_sign :: domain) amount name msg []
  in
  let req := GET t (lnurlp_url username domain) None in
  (∀ lo, int_value (min_sendable_of d) = Some lo → amount < lo →
         run = (Ok None, [req]))
  ∧ (is_number (min_sendable_of d) = false → run = (Raise TypeError, [req]))
  ∧ (∀ lo, int_value (min_sendable_of d) = Some lo → lo ≤ amount →
           is_number (max_sendable_of d) = false →
           run = (Raise TypeError, [req])).
Proof.
  intros Hu Hreq Hblank Hjson Htag Hcb Htruthy run req. subst run req.
  assert (∀ e, out_of_range amount (min_sendable_of d) (max_sendable_of d)
               = Raise e →
               resolve_lnurlp requester t (username ++ at_sign :: domain)
                 amount name msg []
               = (Raise e, [GET t (lnurlp_url username domain) None]))
    as Hraise.
  { intros e He. rewrite resolve_lnurlp_at by done. cbn zeta.
    rewrite Hreq. cbn [decoded]. rewrite Hblank, Hjson.
    cbn [and_then callback_of].
    rewrite (proj2 (ne_str_default_false _ _) Htag), Hcb.
    cbn [default from_option id]. rewrite Htruthy. cbn [negb].
    by rewrite He. }
  split_and!.
  - intros lo Hlo Hlt. apply (rejected_amount_stops _ _ _ _ r d); try done.
    by apply (out_of_range_below _ _ _ lo).
  - intros Hmin. apply Hraise. unfold out_of_range.
    by destruct (min_sendable_of d).
  - intros lo Hlo Hge Hmax. apply Hraise. unfold out_of_range.
    rewrite (int_lt_value _ _ _ Hlo).
    destruct (Z.ltb_spec amount lo); [lia|].
    by destruct (max_sendable_of d).
Qed.

Lemma bounds_compared_in_order_witness :
  let run amount :=
    resolve_lnurlp (lnurlp_server text_max_response) 10
      (lit "alice" ++ at_sign :: lit "example.com") amount (lit "bob")
      (lit "hi") []
  in
  let req := GET 10 (lnurlp_url (lit "alice") (lit "example.com")) None in
  run 999 = (Ok None, [req]) ∧ run 2000 = (Raise TypeError, [req]).
Proof.
  intros run req. split.
  - refine (proj1 (bounds_compared_in_order (lnurlp_server text_max_response)
                     10 (lit "alice") (lit "example.com") text_max_response
                     text_max_fields (jstr "https://x/cb") 999 (lit "bob")
                     (lit "hi") _ _ _ _ _ _ _) 1000 _ _);
      first [by_evaluation | reflexivity].
  - refine (proj2 (proj2
              (bounds_compared_in_order (lnurlp_server text_max_response)
                 10 (lit "alice") (lit "example.com") text_max_response
                 text_max_fields (jstr "https://x/cb") 2000 (lit "bob")
                 (lit "hi") _ _ _ _ _ _ _)) 1000 _ _ _);
      first [by_evaluation | reflexivity].
Defined.
